(** * fetch_audio: verse addressing, Bismillah removal and caption timing

    A shallow embedding of [codebase/fetch_audio.py] and the properties of
    its resolver ([get_recitations]), metadata listing ([get_reciters],
    [get_surahs]), batch downloader ([download_recitations]) and caption
    writer ([generate_ayat_caption_file]).

    Conventions of the embedding:
    - a Python [str] is the list of its Unicode code points;
    - a Python [int] is a [Z], a Python [float] a binary64 [float];
    - a raised exception is the [Raise] branch of [result];
    - the remote API is a snapshot of its answers: the two listings as
      parsed, each verse lookup as its status and the bytes of its body,
      which the resolver decodes and parses itself; [json.loads] is a
      parameter;
    - the local file system is a finite map from paths to text contents;
    - the [debug] progress lines only go to standard output and are left
      out. *)

From Stdlib Require Import Strings.String Strings.Ascii.
From Stdlib Require Import ZArith DecimalString.
From Stdlib Require DecimalPos DecimalZ.
From Stdlib Require Import Floats.PrimFloat Floats.SpecFloat Floats.FloatOps.
From stdpp Require Import gmap list.

Local Open Scope Z_scope.

(** ** Python strings *)

Module PyStr.

(** A code point. *)
Definition char := N.

Definition pystr := list char.

(** An ASCII literal of the source, as a Python string. *)
Definition lit (s : string) : pystr :=
  map N_of_ascii (list_ascii_of_string s).

(** [str(n)] for an [int]: decimal digits, with a leading minus sign
    for a negative number. *)
Definition str_of_int (n : Z) : pystr :=
  lit (NilZero.string_of_int (Z.to_int n)).

(** [s.startswith(p)]. *)
Fixpoint starts_with (p s : pystr) : bool :=
  match p, s with
  | [], _ => true
  | _ :: _, [] => false
  | a :: p', b :: s' => N.eqb a b && starts_with p' s'
  end.

(** [p in s]: the substring test. *)
Definition py_in (p s : pystr) : bool :=
  existsb (fun i => starts_with p (drop i s)) (seq 0 (S (length s))).

(** The scan of [str.replace] for a non-empty [old]: left to right, the
    leftmost occurrence is replaced and the scan resumes after it, so
    the occurrences replaced never overlap. [skip] counts the characters
    of the current occurrence that are still to be passed over. *)
Fixpoint replace_scan (old new : pystr) (skip : nat) (s : pystr) : pystr :=
  match s with
  | [] => []
  | c :: s' =>
      match skip with
      | S k => replace_scan old new k s'
      | O =>
          if starts_with old s
          then new ++ replace_scan old new (length old - 1) s'
          else c :: replace_scan old new 0 s'
      end
  end.

(** [s.replace(old, new)]. For an empty [old] Python puts [new] before
    every character and at the end. *)
Definition replace (s old new : pystr) : pystr :=
  match old with
  | [] => new ++ concat (map (fun c => c :: new) s)
  | _ :: _ => replace_scan old new 0 s
  end.

(** [str.isspace] on one code point: the Unicode white space of
    CPython. *)
Definition is_space (c : char) : bool :=
  ((9 <=? c) && (c <=? 13) || (28 <=? c) && (c <=? 32)
   || (c =? 133) || (c =? 160) || (c =? 5760)
   || (8192 <=? c) && (c <=? 8202)
   || (c =? 8232) || (c =? 8233) || (c =? 8239) || (c =? 8287)
   || (c =? 12288))%N.

Fixpoint lstrip (s : pystr) : pystr :=
  match s with
  | [] => []
  | c :: s' => if is_space c then lstrip s' else s
  end.

Definition rstrip (s : pystr) : pystr := rev (lstrip (rev s)).

(** [s.strip()]. *)
Definition strip (s : pystr) : pystr := rstrip (lstrip s).

(** [sep.join(parts)]. *)
Fixpoint join (sep : pystr) (parts : list pystr) : pystr :=
  match parts with
  | [] => []
  | [p] => p
  | p :: rest => p ++ sep ++ join sep rest
  end.

(** A string has no border when no proper non-empty prefix of it is
    also a suffix: two occurrences of it in a text cannot overlap. *)
Definition unbordered (p : pystr) : bool :=
  forallb (fun k => negb (bool_decide (drop k p = take (length p - k) p)))
          (seq 1 (length p - 1)).

End PyStr.
Import PyStr.

(** ** Exceptions and results *)

Inductive exn : Type :=
| FetchError (msg : pystr)   (* the module's own exception class *)
| Exception (msg : pystr)    (* a plain [Exception] *)
| IndexError                 (* subscript of an empty list *)
| OSError                    (* a failed file-system call *)
| SystemExit                 (* [exit()] *)
| UnicodeDecodeError         (* bytes that are not UTF-8 *)
| JSONDecodeError            (* text that is not JSON *)
| KeyError                   (* a key missing from a dictionary *)
| TypeError                  (* a subscript of what is no dictionary *)
| AttributeError.            (* a [str] method called on what is no [str] *)

Inductive result (A : Type) : Type :=
| Ok (a : A)
| Raise (e : exn).
Arguments Ok {A} a.
Arguments Raise {A} e.

#[global] Instance result_ret : MRet result := fun A a => Ok a.

#[global] Instance result_bind : MBind result := fun A B k r =>
  match r with
  | Ok a => k a
  | Raise e => Raise e
  end.

(** [l[0]]. *)
Definition item0 {A} (l : list A) : result A :=
  match l with
  | [] => Raise IndexError
  | x :: _ => Ok x
  end.

(** [range(a, b)]. *)
Definition py_range (a b : Z) : list Z :=
  map (fun k => a + Z.of_nat k) (seq 0 (Z.to_nat (b - a))).

(** ** Bytes, UTF-8 and JSON values *)

Definition bytes := list Byte.byte.

Definition is_continuation (b : N) : bool := ((128 <=? b) && (b <=? 191))%N.

(** The second byte of a three-byte sequence: E0 and ED narrow its
    range, to shut out the overlong forms and the surrogates. *)
Definition second_of_three (b0 b1 : N) : bool :=
  (if b0 =? 224 then (160 <=? b1) && (b1 <=? 191)
   else if b0 =? 237 then (128 <=? b1) && (b1 <=? 159)
   else is_continuation b1)%N.

(** The second byte of a four-byte sequence: F0 and F4 narrow its range,
    to shut out the overlong forms and what lies past U+10FFFF. *)
Definition second_of_four (b0 b1 : N) : bool :=
  (if b0 =? 240 then (144 <=? b1) && (b1 <=? 191)
   else if b0 =? 244 then (128 <=? b1) && (b1 <=? 143)
   else is_continuation b1)%N.

(** The strict UTF-8 decoder on the values of the bytes; [None] where
    Python raises [UnicodeDecodeError]. *)
Fixpoint utf8_decode_values (bs : list N) : option pystr :=
  match bs with
  | [] => Some []
  | b0 :: r0 =>
      if (b0 <? 128)%N then cons b0 <$> utf8_decode_values r0
      else if ((194 <=? b0) && (b0 <=? 223))%N then
        match r0 with
        | b1 :: r1 =>
            if is_continuation b1
            then cons ((b0 - 192) * 64 + (b1 - 128))%N <$> utf8_decode_values r1
            else None
        | _ => None
        end
      else if ((224 <=? b0) && (b0 <=? 239))%N then
        match r0 with
        | b1 :: b2 :: r2 =>
            if second_of_three b0 b1 && is_continuation b2
            then cons ((b0 - 224) * 4096 + (b1 - 128) * 64 + (b2 - 128))%N
                   <$> utf8_decode_values r2
            else None
        | _ => None
        end
      else if ((240 <=? b0) && (b0 <=? 244))%N then
        match r0 with
        | b1 :: b2 :: b3 :: r3 =>
            if second_of_four b0 b1 && is_continuation b2 && is_continuation b3
            then cons ((b0 - 240) * 262144 + (b1 - 128) * 4096
                       + (b2 - 128) * 64 + (b3 - 128))%N
                   <$> utf8_decode_values r3
            else None
        | _ => None
        end
      else None
  end.

(** [b.decode('utf8')]. *)
Definition utf8_decode (b : bytes) : option pystr :=
  utf8_decode_values (Byte.to_N <$> b).

(** What [json.loads] returns: [None], [True] or [False], an [int], a
    [float], a [str], a list, or a dictionary, given by its members in
    the order of the document. *)
Inductive json : Type :=
| JNull
| JBool (b : bool)
| JInt (n : Z)
| JFloat (f : float)
| JStr (s : pystr)
| JArr (items : list json)
| JObj (members : list (pystr * json)).

(** The value of [key] in a dictionary built from [members]: of two
    members with one key the later one stays. *)
Fixpoint dict_get (key : pystr) (members : list (pystr * json)) : option json :=
  match members with
  | [] => None
  | (k, v) :: rest =>
      match dict_get key rest with
      | Some later => Some later
      | None => if bool_decide (k = key) then Some v else None
      end
  end.

(** [j[key]] for a string [key]: [KeyError] on a dictionary without the
    key, [TypeError] on anything that is no dictionary. *)
Definition subscript (j : json) (key : pystr) : result json :=
  match j with
  | JObj members =>
      match dict_get key members with
      | Some v => Ok v
      | None => Raise KeyError
      end
  | _ => Raise TypeError
  end.

(** [v.replace(old, new)]: only a [str] has the method. *)
Definition method_replace (v : json) (old new : pystr) : result json :=
  match v with
  | JStr s => Ok (JStr (replace s old new))
  | _ => Raise AttributeError
  end.

(** [v.strip()]: only a [str] has the method. *)
Definition method_strip (v : json) : result pystr :=
  match v with
  | JStr s => Ok (strip s)
  | _ => Raise AttributeError
  end.

(** ** The remote API, as the parsed bodies of its answers *)

(** One entry of the edition listing ([/v1/edition/format/audio]). *)
Record Edition := {
  language : pystr;
  name : pystr;
  identifier : pystr
}.

(** One entry of the surah references ([/v1/meta]). *)
Record SurahRef := {
  ref_name : pystr;
  numberOfAyahs : Z
}.

(** The answer to a verse lookup ([/v1/ayah/<n>]): the HTTP status and
    the bytes of the body, which the resolver decodes and parses
    itself. *)
Record AyahResponse := {
  status_code : Z;
  content : bytes
}.

Record Api := {
  editions : list Edition;
  references : list SurahRef;
  ayah : Z -> AyahResponse
}.

(** ** The dictionaries the module builds *)

Record Reciter := {
  reciter_id : Z;
  reciter_name : pystr;
  reciter_code : pystr
}.

Record Surah := {
  surah_id : Z;
  surah_name : pystr;
  aya_base : Z;
  n_aya : Z
}.

Record Recitation := {
  text : pystr;
  audio_link : pystr
}.

#[global] Instance Surah_eq_dec : EqDecision Surah.
Proof. solve_decision. Defined.

(** The Python objects that the resolver compares with [==]. *)
Inductive pyobj : Type :=
| ObjInt (n : Z)
| ObjSurah (s : Surah).

(** [a == b]: two integers compare by value, two dictionaries by
    content; a dictionary never equals an integer. *)
Definition py_eq (a b : pyobj) : bool :=
  match a, b with
  | ObjInt m, ObjInt n => m =? n
  | ObjSurah s, ObjSurah t => bool_decide (s = t)
  | _, _ => false
  end.

(** ** Metadata provider *)

(** One turn of the loop of [get_reciters]; the state is
    [(reciters, id)]. *)
Definition get_reciters_step (st : list Reciter * Z) (reciter : Edition)
  : list Reciter * Z :=
  let '(reciters, id) := st in
  if bool_decide (language reciter = lit "ar")
  then (reciters ++ [{| reciter_id := id;
                        reciter_name := name reciter;
                        reciter_code := identifier reciter |}],
        id + 1)
  else (reciters, id).

Definition get_reciters (api : Api) : list Reciter :=
  fst (fold_left get_reciters_step (editions api) ([], 1)).

(** One turn of the loop of [get_surahs]; the state is
    [(surahs, id, aya_base)]. *)
Definition get_surahs_step (st : list Surah * Z * Z) (surah : SurahRef)
  : list Surah * Z * Z :=
  let '(surahs, id, base) := st in
  (surahs ++ [{| surah_id := id;
                 surah_name := ref_name surah;
                 aya_base := base;
                 n_aya := numberOfAyahs surah |}],
   id + 1,
   base + numberOfAyahs surah).

Definition get_surahs (api : Api) : list Surah :=
  fst (fst (fold_left get_surahs_step (references api) ([], 1, 0))).

(** ** Verse range resolver *)

(** The phrase of line 126, U+0628 U+0650 U+0633 U+06E1 U+0645 U+0650 ...:
    the Bismillah, 39 code points including the three spaces. *)
Definition BISMILLAH : pystr :=
  [1576; 1616; 1587; 1761; 1605; 1616; 32;
   1649; 1604; 1604; 1617; 1614; 1607; 1616; 32;
   1649; 1604; 1585; 1617; 1614; 1581; 1761; 1605; 1614; 1600; 1648;
   1606; 1616; 32;
   1649; 1604; 1585; 1617; 1614; 1581; 1616; 1740; 1605; 1616]%N.

(** From verse numbers of the surah to verse numbers of the whole text:
    the loop over [range(start, end+1)]. *)
Definition required_ayat (surah : Surah) (start end_ : Z) : list Z :=
  fold_left (fun acc n => acc ++ [n + aya_base surah])
            (py_range start (end_ + 1)) [].

(** Line 113. The left operand compares [surah], the dictionary found
    for [surah_number], with the integer 1. *)
Definition remove_bismillah (surah : Surah) (start : Z) : bool :=
  if negb (py_eq (ObjSurah surah) (ObjInt 1)) && (start =? 1)
  then true else false.

Definition audio_link_of (reciter : pystr) (aya : Z) : pystr :=
  lit "https://cdn.islamic.network/quran/audio/192/" ++ reciter
  ++ lit "/" ++ str_of_int aya ++ lit ".mp3".

Section Resolver.

(** [json.loads] of the Python library, taken as given: the value
    parsed, or [None] where it raises [JSONDecodeError]. *)
Variable json_loads : pystr -> option json.

(** Line 122: the body is decoded, every apostrophe in it is turned into
    a double quote, the outcome is parsed and subscripted twice. *)
Definition response_text (text_response : AyahResponse) : result json :=
  match utf8_decode (content text_response) with
  | None => Raise UnicodeDecodeError
  | Some body =>
      match json_loads (replace body [39%N] [34%N]) with
      | None => Raise JSONDecodeError
      | Some parsed =>
          data ← subscript parsed (lit "data");
          subscript data (lit "text")
      end
  end.

(** Lines 120-124: the ["text"] of one verse, or the [FetchError] of
    line 124 when the status is not 200. *)
Definition fetch_text (api : Api) (aya : Z) : result json :=
  let text_response := ayah api aya in
  if status_code text_response =? 200
  then response_text text_response
  else Raise (FetchError
                (lit "Error in fetching text of aya number " ++ str_of_int aya)).

(** The loop over [enumerate(required_ayat)], from position [i] on, with
    the recitations gathered so far. *)
Fixpoint fetch_ayat (api : Api) (reciter : pystr) (remove : bool)
    (i : Z) (ayat : list Z) (recitations : list Recitation)
  : result (list Recitation) :=
  match ayat with
  | [] => Ok recitations
  | aya :: rest =>
      let link := audio_link_of reciter aya in
      txt ← fetch_text api aya;
      txt ← (if (i =? 0) && remove
             then method_replace txt BISMILLAH [] else Ok txt);
      stripped ← method_strip txt;
      fetch_ayat api reciter remove (i + 1) rest
                 (recitations ++ [{| text := stripped; audio_link := link |}])
  end.

Definition range_error_end (surah : Surah) (end_ : Z) : exn :=
  Exception (lit "Surah " ++ surah_name surah ++ lit " only contain "
             ++ str_of_int (n_aya surah) ++ lit " ayat. Aya number "
             ++ str_of_int end_ ++ lit " was required").

Definition range_error_start : exn :=
  Exception (lit "start can't be less than one").

Definition range_error_order : exn :=
  Exception (lit "end can't be less than start").

Definition get_recitations (api : Api)
    (reciter_number surah_number start end_ : Z)
  : result (list Recitation) :=
  let surahs := get_surahs api in
  reciter ← item0 (reciter_code <$>
                     filter (λ r, reciter_id r = reciter_number)
                            (get_reciters api));
  if bool_decide (reciter = [])
  then Raise (FetchError (lit "Reciter id doesnt exist"))
  else if negb (bool_decide (surah_number ∈ surah_id <$> surahs))
  then Raise (FetchError (lit "Surah id doesnt exist"))
  else
    surah ← item0 (filter (λ s, surah_id s = surah_number) surahs);
    if end_ >? n_aya surah then Raise (range_error_end surah end_)
    else if start <? 1 then Raise range_error_start
    else if end_ <? start then Raise range_error_order
    else
      fetch_ayat api reciter (remove_bismillah surah start) 0
                 (required_ayat surah start end_) [].

(** The lookup of verse [aya] succeeds: it answers 200 with a body that
    decodes, parses and holds a string at ["data"]["text"]. *)
Definition fetches (api : Api) (aya : Z) : Prop :=
  exists t, fetch_text api aya = Ok (JStr t).

(** The text a successful lookup of verse [aya] gives. *)
Definition fetched (api : Api) (aya : Z) : pystr :=
  match fetch_text api aya with
  | Ok (JStr t) => t
  | _ => []
  end.

End Resolver.

(** ** Batch downloader *)

(** [os.path.join(a, b)] of [posixpath]. *)
Definition os_path_join (a b : pystr) : pystr :=
  if starts_with (lit "/") b then b
  else if bool_decide (a = []) || bool_decide (last a = Some 47%N)
       then a ++ b
       else a ++ lit "/" ++ b.

Section Downloader.

(** The state of the machine outside the interpreter: the local files
    and whatever the downloads depend on. *)
Variable world : Type.

(** [os.path.exists]. *)
Variable os_path_exists : world -> pystr -> bool.

(** [os.mkdir]: the world with the directory made, or the error
    raised. *)
Variable os_mkdir : world -> pystr -> result world.

(** [codebase.utils.download_file(link, path, debug)], a function of the
    repository that [fetch_audio.py] only imports: it reports whether
    the download succeeded, and leaves the world changed. *)
Variable download_file : world -> pystr -> pystr -> bool * world.

Definition recitation_path (destination : pystr) (i : Z) : pystr :=
  os_path_join destination (lit "recitation_" ++ str_of_int i ++ lit ".mp3").

(** The loop over [enumerate(recitations)], from position [i] on, with
    the file names gathered so far. *)
Fixpoint download_loop (destination : pystr) (w : world) (i : Z)
    (recitations : list pystr) (audios : list pystr)
  : result (list pystr) * world :=
  match recitations with
  | [] => (Ok audios, w)
  | recitation_link :: rest =>
      let file_path := recitation_path destination i in
      let '(succsess, w') := download_file w recitation_link file_path in
      if negb succsess then (Raise SystemExit, w')
      else download_loop destination w' (i + 1) rest (audios ++ [file_path])
  end.

(** Lines 152-153. *)
Definition ensure_destination (w : world) (destination : pystr)
  : result world :=
  if negb (os_path_exists w destination) then os_mkdir w destination
  else Ok w.

Definition download_recitations (w : world) (recitations : list pystr)
    (destination : pystr) : result (list pystr) * world :=
  match ensure_destination w destination with
  | Raise e => (Raise e, w)
  | Ok w1 => download_loop destination w1 0 recitations []
  end.

(** Every download of the batch succeeds, each in the world its
    predecessors left. *)
Fixpoint downloads_succeed (destination : pystr) (w : world) (i : Z)
    (recitations : list pystr) : Prop :=
  match recitations with
  | [] => True
  | recitation_link :: rest =>
      let r := download_file w recitation_link (recitation_path destination i) in
      fst r = true /\ downloads_succeed destination (snd r) (i + 1) rest
  end.

End Downloader.

(** ** Caption writer *)

(** The numbers of the caption writer: the running total starts as the
    [int] 0 and is a [float] from the first duration on. *)
Inductive pynum : Type :=
| PyInt (n : Z)
| PyFloat (f : float).

(** [float(n)], rounded to the nearest binary64. *)
Definition float_of_int (n : Z) : float :=
  SF2Prim (binary_normalize prec emax n 0 false).

Definition to_float (a : pynum) : float :=
  match a with
  | PyInt n => float_of_int n
  | PyFloat f => f
  end.

(** [a + d] for a duration [d], which is a [float]: an [int] on the left
    is converted first. *)
Definition py_add (a : pynum) (d : float) : pynum :=
  PyFloat (to_float a + d)%float.

(** The files of the machine: path to contents. *)
Abbreviation filesystem := (gmap pystr pystr).

Section CaptionWriter.

(** [repr] of a [float], the shortest decimal that reads back as the same
    number; the host's conversion, not fixed here. *)
Variable float_repr : float -> pystr.

(** Whether [open(path, "w")] succeeds (the directory exists, the path
    may be written). *)
Variable openable : pystr -> bool.

(** [f"{x}"] for a number. *)
Definition format_num (x : pynum) : pystr :=
  match x with
  | PyInt n => str_of_int n
  | PyFloat f => float_repr f
  end.

(** [open(path, "w")]: the file is created, or emptied if it exists. *)
Definition open_w (fs : filesystem) (path : pystr) : result filesystem :=
  if openable path then Ok (<[path := []]> fs) else Raise OSError.

(** [file.write(s)] on the file opened at [path]. *)
Definition file_write (fs : filesystem) (path s : pystr) : filesystem :=
  alter (fun contents => contents ++ s) path fs.

Definition caption_line (start_ end_ : pynum) (aya_text : pystr) : pystr :=
  format_num start_ ++ lit ":" ++ format_num end_ ++ lit ":" ++ aya_text
  ++ [10%N].

(** The loop over [range(0, len(ayat_durations))]; a subscript out of
    range raises [IndexError]. *)
Fixpoint caption_loop (ayat_texts : list pystr) (ayat_durations : list float)
    (destination : pystr) (indices : list nat)
    (fs : filesystem) (cummulative_duration : pynum)
  : result unit * filesystem :=
  match indices with
  | [] => (Ok tt, fs)
  | i :: rest =>
      match ayat_durations !! i, ayat_texts !! i with
      | Some d, Some t =>
          let line :=
            caption_line cummulative_duration (py_add cummulative_duration d) t in
          caption_loop ayat_texts ayat_durations destination rest
                       (file_write fs destination line)
                       (py_add cummulative_duration d)
      | _, _ => (Raise IndexError, fs)
      end
  end.

Definition size_mismatch : exn :=
  Exception
    (lit "Both ayat texts and durations arrays should be of the same size").

Definition generate_ayat_caption_file (fs : filesystem)
    (ayat_texts : list pystr) (ayat_durations : list float)
    (destination : pystr) : result unit * filesystem :=
  if negb (length ayat_durations =? length ayat_texts)%nat
  then (Raise size_mismatch, fs)
  else
    match open_w fs destination with
    | Raise e => (Raise e, fs)
    | Ok fs1 =>
        caption_loop ayat_texts ayat_durations destination
                     (seq 0 (length ayat_durations)) fs1 (PyInt 0)
    end.

(** The timing of entry [i] in the words of the specification: it starts
    at the sum of the durations before it, taken in order from 0, and
    ends one duration later. *)
Definition caption_start (durations : list float) (i : nat) : pynum :=
  fold_left py_add (take i durations) (PyInt 0).

Definition caption_end (durations : list float) (i : nat) : pynum :=
  match durations !! i with
  | Some d => py_add (caption_start durations i) d
  | None => caption_start durations i
  end.

End CaptionWriter.

(** ** Closed forms used by the statements *)

(** The verse counts of a run of surahs, added up. *)
Definition sum_ayahs (refs : list SurahRef) : Z :=
  foldr (fun r acc => numberOfAyahs r + acc) 0 refs.

(** The invariant of the loop of [get_surahs]. *)
Definition surahs_inv (refs : list SurahRef) (st : list Surah * Z * Z) : Prop :=
  let '(surahs, id, base) := st in
  id = Z.of_nat (length refs) + 1 /\
  base = sum_ayahs refs /\
  length surahs = length refs /\
  forall i s, surahs !! i = Some s ->
    exists r, refs !! i = Some r /\
      s = {| surah_id := Z.of_nat i + 1; surah_name := ref_name r;
             aya_base := sum_ayahs (take i refs); n_aya := numberOfAyahs r |}.

(** The invariant of the loop of [get_reciters]. *)
Definition reciters_inv (st : list Reciter * Z) : Prop :=
  let '(reciters, id) := st in
  id = Z.of_nat (length reciters) + 1 /\
  forall i r, reciters !! i = Some r -> reciter_id r = Z.of_nat i + 1.

(** The recitation built for verse [aya]; [first] tells whether it is
    the first of the range. *)
Definition recitation_at (json_loads : pystr -> option json) (api : Api)
    (reciter : pystr) (remove first : bool) (aya : Z) : Recitation :=
  let txt := fetched json_loads api aya in
  {| text := strip (if first && remove then replace txt BISMILLAH [] else txt);
     audio_link := audio_link_of reciter aya |}.

(** A reciter id that resolves to a code the resolver accepts. *)
Definition known_reciter (api : Api) (reciter_number : Z) (r : Reciter) : Prop :=
  r ∈ get_reciters api /\ reciter_id r = reciter_number /\ reciter_code r <> [].

Definition known_surah (api : Api) (surah_number : Z) (s : Surah) : Prop :=
  s ∈ get_surahs api /\ surah_id s = surah_number.

(** The errors a verse lookup can end in: the [FetchError] of line 124,
    or what line 122 and the [str] methods of lines 126-127 raise. *)
Definition lookup_error (e : exn) : Prop :=
  match e with
  | FetchError _ | UnicodeDecodeError | JSONDecodeError | KeyError
  | TypeError | AttributeError => True
  | _ => False
  end.

(** ** Sample data *)

(** [s.encode('utf8')] for the sample texts, none of which holds a
    surrogate or a code point past U+10FFFF. *)
Definition utf8_encode_char (c : N) : list N :=
  (if c <? 128 then [c]
   else if c <? 2048 then [192 + c / 64; 128 + c mod 64]
   else if c <? 65536
        then [224 + c / 4096; 128 + (c / 64) mod 64; 128 + c mod 64]
        else [240 + c / 262144; 128 + (c / 4096) mod 64;
              128 + (c / 64) mod 64; 128 + c mod 64])%N.

Definition utf8_encode (s : pystr) : bytes :=
  (fun b => default Byte.x00 (Byte.of_N b)) <$> concat (utf8_encode_char <$> s).

(** The body of a sample verse: the JSON document
    [{"data": {"text": "..."}}], a line feed in the text being written
    as backslash and [n]. *)
Definition sample_prefix : pystr :=
  [123; 34]%N ++ lit "data" ++ [34]%N ++ lit ": {" ++ [34]%N ++ lit "text"
  ++ [34]%N ++ lit ": " ++ [34]%N.

Definition sample_suffix : pystr := [34]%N ++ lit "}}".

Definition sample_escape (t : pystr) : pystr :=
  concat ((fun c => if (c =? 10)%N then [92; 110]%N else [c]) <$> t).

Definition sample_body (t : pystr) : bytes :=
  utf8_encode (sample_prefix ++ sample_escape t ++ sample_suffix).

(** The inside of a JSON string without a quote or a control character,
    in which the only escape is that of the line feed. *)
Fixpoint sample_unescape (s : pystr) : option pystr :=
  match s with
  | [] => Some []
  | c :: r =>
      if (c =? 92)%N then
        match r with
        | d :: r' => if (d =? 110)%N then cons 10%N <$> sample_unescape r'
                     else None
        | [] => None
        end
      else if ((c =? 34) || (c <? 32))%N then None
      else cons c <$> sample_unescape r
  end.

(** A JSON parser for the documents of the shape of [sample_body], on
    which it gives what [json.loads] gives; it turns down every other
    text. *)
Definition sample_json_loads (s : pystr) : option json :=
  if starts_with sample_prefix s then
    let rest := drop (length sample_prefix) s in
    let middle := take (length rest - length sample_suffix) rest in
    if bool_decide (rest = middle ++ sample_suffix) then
      t ← sample_unescape middle;
      Some (JObj [(lit "data", JObj [(lit "text", JStr t)])])
    else None
  else None.

(** Two editions, one of them Arabic; the first two surahs; the verses
    1 to 293, of which verse 1 is the Bismillah and verse 8 (the first
    of surah 2) holds it twice, away from its beginning. *)
Definition sample_api : Api :=
  {| editions :=
       [ {| language := lit "en"; name := lit "Walk";
            identifier := lit "en.walk" |};
         {| language := lit "ar"; name := lit "Alafasy";
            identifier := lit "ar.alafasy" |} ];
     references :=
       [ {| ref_name := lit "Al-Faatiha"; numberOfAyahs := 7 |};
         {| ref_name := lit "Al-Baqara"; numberOfAyahs := 286 |} ];
     ayah := fun n =>
       if (1 <=? n) && (n <=? 293) then
         {| status_code := 200;
            content :=
              sample_body
                (if n =? 1 then BISMILLAH ++ [10%N]
                 else if n =? 8
                      then join BISMILLAH [lit "alif "; lit " lam "; lit " mim"]
                      else lit "verse " ++ str_of_int n) |}
       else {| status_code := 404; content := [] |} |}.

Definition sample_reciter : Reciter :=
  {| reciter_id := 1; reciter_name := lit "Alafasy";
     reciter_code := lit "ar.alafasy" |}.

Definition sample_surah_1 : Surah :=
  {| surah_id := 1; surah_name := lit "Al-Faatiha"; aya_base := 0; n_aya := 7 |}.

Definition sample_surah_2 : Surah :=
  {| surah_id := 2; surah_name := lit "Al-Baqara"; aya_base := 7; n_aya := 286 |}.

(** A machine on which every download succeeds; its state is the log of
    the downloads made, as pairs of link and file name. *)
Definition sample_download_file (w : list (pystr * pystr)) (link path : pystr)
  : bool * list (pystr * pystr) :=
  (true, w ++ [(link, path)]).

(** The decimal forms of the few durations of the examples. *)
Definition sample_float_repr (f : float) : pystr :=
  if (f =? 2)%float then lit "2.0"
  else if (f =? 3)%float then lit "3.0"
  else if (f =? 4.5)%float then lit "4.5"
  else if (f =? 7.5)%float then lit "7.5"
  else if (f =? 9.5)%float then lit "9.5"
  else lit "?".

(** The caption lines of the specification: entry [i] is timed by
    [caption_start] and [caption_end] and carries text [i]. *)
Definition caption_lines (float_repr : float -> pystr)
    (texts : list pystr) (durations : list float) : list pystr :=
  imap (fun i t =>
          caption_line float_repr (caption_start durations i)
                       (caption_end durations i) t)
       texts.

(** ** Duration extractor *)

Section DurationExtractor.

(** [os.path.exists]; the extractor changes no file. *)
Variable os_path_exists : pystr -> bool.

(** [len(AudioSegment.from_mp3(filename))]: the length of the decoded
    clip in milliseconds, an [int] computed by [pydub]. *)
Variable audio_length : pystr -> Z.

(** The loop of [recitations_durations], with the durations gathered so
    far; [len(audio) / 1000.0] converts the [int] and divides as
    [float]. *)
Fixpoint durations_loop (audio_file_names : list pystr) (durations : list float)
  : result (list float) :=
  match audio_file_names with
  | [] => Ok durations
  | filename :: rest =>
      if os_path_exists filename
      then
        let duration_in_seconds :=
          (float_of_int (audio_length filename) / 1000)%float in
        durations_loop rest (durations ++ [duration_in_seconds])
      else Raise SystemExit
  end.

Definition recitations_durations (audio_file_names : list pystr)
  : result (list float) :=
  durations_loop audio_file_names [].

End DurationExtractor.

(** ** More sample data *)

(** [sample_api] with verse 9 (the second of surah 2) out of reach. *)
Definition sample_api_gap : Api :=
  {| editions := editions sample_api;
     references := references sample_api;
     ayah := fun n =>
       if n =? 9 then {| status_code := 500; content := [] |}
       else ayah sample_api n |}.

(** [sample_api] with an apostrophe in the text of verse 9: the status
    is 200, and the body is valid JSON until line 122 rewrites it. *)
Definition sample_api_apostrophe : Api :=
  {| editions := editions sample_api;
     references := references sample_api;
     ayah := fun n =>
       if n =? 9
       then {| status_code := 200; content := sample_body (lit "the verse's text") |}
       else ayah sample_api n |}.

(** An edition listing whose only Arabic entry has an empty identifier. *)
Definition sample_api_blank : Api :=
  {| editions :=
       [ {| language := lit "ar"; name := lit "Nameless"; identifier := [] |} ];
     references := references sample_api;
     ayah := ayah sample_api |}.

Definition sample_blank_reciter : Reciter :=
  {| reciter_id := 1; reciter_name := lit "Nameless"; reciter_code := [] |}.

(** Two clips on disk, of 3000 and 4500 milliseconds. *)
Definition sample_exists (path : pystr) : bool :=
  bool_decide (path = lit "out/recitation_0.mp3")
  || bool_decide (path = lit "out/recitation_1.mp3").

Definition sample_audio_length (path : pystr) : Z :=
  if bool_decide (path = lit "out/recitation_0.mp3") then 3000 else 4500.

(** A machine on which the download of one link fails. *)
Definition sample_flaky_download (w : list (pystr * pystr)) (link path : pystr)
  : bool * list (pystr * pystr) :=
  (negb (bool_decide (link = lit "https://a/bad.mp3")), w ++ [(link, path)]).

(** * Properties *)

(** A sample lookup that succeeds, by running it. *)
Ltac sample_fetch := eexists; vm_compute; reflexivity.

(** ** Loops that gather a list *)

Lemma fold_left_snoc {A B} (f : A -> B) (l : list A) (acc : list B) :
  fold_left (fun acc x => acc ++ [f x]) l acc = acc ++ (f <$> l).
Proof.
  revert acc. induction l as [|x l IH]; intros acc; simpl.
  - by rewrite app_nil_r.
  - rewrite IH, <- app_assoc. done.
Qed.

(** A list whose keys count up from [off] holds each key once. *)
Lemma filter_key_none {A} (key : A -> Z) (l : list A) (off n : Z) :
  (forall i x, l !! i = Some x -> key x = Z.of_nat i + off) ->
  n < off ->
  filter (λ y, key y = n) l = [].
Proof.
  revert off. induction l as [|a l IH]; intros off Hkey Hn; [done|].
  rewrite filter_cons. destruct (decide (key a = n)) as [Ha|Ha].
  - specialize (Hkey 0%nat a eq_refl). lia.
  - apply (IH (off + 1)); [|lia].
    intros i x Hx. specialize (Hkey (S i) x Hx). lia.
Qed.

Lemma filter_key_singleton {A} (key : A -> Z) (l : list A) (off : Z) (x : A) :
  (forall i y, l !! i = Some y -> key y = Z.of_nat i + off) ->
  x ∈ l ->
  filter (λ y, key y = key x) l = [x].
Proof.
  revert off. induction l as [|a l IH]; intros off Hkey Hx.
  - by apply elem_of_nil in Hx.
  - assert (Htl : forall i y, l !! i = Some y -> key y = Z.of_nat i + (off + 1)).
    { intros i y Hy. specialize (Hkey (S i) y Hy). lia. }
    pose proof (Hkey 0%nat a eq_refl) as Ha. simpl in Ha.
    rewrite filter_cons. apply elem_of_cons in Hx as [->|Hx].
    + rewrite decide_True by done. f_equal.
      apply (filter_key_none key l (off + 1)); [done|lia].
    + apply list_elem_of_lookup in Hx as Hi. destruct Hi as [i Hi].
      pose proof (Htl i x Hi) as Hk.
      rewrite decide_False by lia. by apply (IH (off + 1)).
Qed.

(** ** Metadata provider *)

Lemma sum_ayahs_app (l1 l2 : list SurahRef) :
  sum_ayahs (l1 ++ l2) = sum_ayahs l1 + sum_ayahs l2.
Proof. induction l1 as [|r l1 IH]; simpl; [done|]. rewrite IH. lia. Qed.

Lemma get_surahs_loop_inv (refs : list SurahRef) :
  surahs_inv refs (fold_left get_surahs_step refs ([], 1, 0)).
Proof.
  induction refs as [|r refs IH] using rev_ind.
  - simpl. repeat split; done.
  - rewrite fold_left_app. simpl.
    destruct (fold_left get_surahs_step refs ([], 1, 0)) as [[surahs id] base].
    destruct IH as (Hid & Hbase & Hlen & Hlook). simpl.
    rewrite !length_app, sum_ayahs_app. simpl.
    repeat split; try lia.
    intros i s Hs.
    destruct (decide (i < length surahs)%nat) as [Hi|Hi].
    + rewrite lookup_app_l in Hs by done.
      destruct (Hlook i s Hs) as (r' & Hr' & ->).
      exists r'. split.
      * rewrite lookup_app_l by lia. done.
      * rewrite take_app_le by lia. done.
    + rewrite lookup_app_r in Hs by lia.
      destruct (i - length surahs)%nat as [|k] eqn:Hk; [|by destruct k].
      assert (i = length refs) as -> by lia.
      simpl in Hs. injection Hs as <-.
      exists r. split.
      * rewrite lookup_app_r by lia. by rewrite Nat.sub_diag.
      * rewrite take_app_length. by subst.
Qed.

Lemma get_surahs_lookup (api : Api) (i : nat) (s : Surah) :
  get_surahs api !! i = Some s ->
  exists r, references api !! i = Some r /\
    s = {| surah_id := Z.of_nat i + 1; surah_name := ref_name r;
           aya_base := sum_ayahs (take i (references api));
           n_aya := numberOfAyahs r |}.
Proof.
  unfold get_surahs. pose proof (get_surahs_loop_inv (references api)) as H.
  destruct (fold_left _ _ _) as [[surahs id] base]. simpl.
  destruct H as (_ & _ & _ & H). apply H.
Qed.

Lemma get_surahs_keys (api : Api) (i : nat) (s : Surah) :
  get_surahs api !! i = Some s -> surah_id s = Z.of_nat i + 1.
Proof. intros H. apply get_surahs_lookup in H as (r & _ & ->). done. Qed.

Lemma get_reciters_loop_inv (eds : list Edition) :
  reciters_inv (fold_left get_reciters_step eds ([], 1)).
Proof.
  induction eds as [|e eds IH] using rev_ind.
  - simpl. split; [done|]. intros i r Hr. by rewrite lookup_nil in Hr.
  - rewrite fold_left_app. simpl.
    destruct (fold_left get_reciters_step eds ([], 1)) as [reciters id].
    destruct IH as [Hid Hkeys]. unfold get_reciters_step.
    case_bool_decide; simpl; [|done].
    rewrite length_app. simpl. split; [lia|].
    intros i r Hr.
    destruct (decide (i < length reciters)%nat) as [Hi|Hi].
    + rewrite lookup_app_l in Hr by done. by apply Hkeys.
    + rewrite lookup_app_r in Hr by lia.
      destruct (i - length reciters)%nat as [|k] eqn:Hk; [|by destruct k].
      simpl in Hr. injection Hr as <-. simpl. lia.
Qed.

Lemma get_reciters_keys (api : Api) (i : nat) (r : Reciter) :
  get_reciters api !! i = Some r -> reciter_id r = Z.of_nat i + 1.
Proof.
  unfold get_reciters. pose proof (get_reciters_loop_inv (editions api)) as H.
  destruct (fold_left _ _ _) as [reciters id]. simpl. apply H.
Qed.

(** C7: in the list of [get_surahs], the surah of id 1 has [aya_base] 0
    and every surah of id above 1 has a predecessor in the list, whose
    [aya_base] plus [n_aya] is its own [aya_base]; the surah at position
    [i] has id [i + 1] and the sum of the verse counts before it as
    [aya_base]. *)
Theorem get_surahs_aya_base_running_sum (api : Api) :
  (forall s, s ∈ get_surahs api -> surah_id s = 1 -> aya_base s = 0) /\
  (forall s p, s ∈ get_surahs api -> p ∈ get_surahs api ->
     surah_id s > 1 -> surah_id p = surah_id s - 1 ->
     aya_base s = aya_base p + n_aya p) /\
  (forall s, s ∈ get_surahs api -> surah_id s > 1 ->
     exists p, p ∈ get_surahs api /\ surah_id p = surah_id s - 1) /\
  (forall i s, get_surahs api !! i = Some s ->
     surah_id s = Z.of_nat i + 1 /\
     aya_base s = sum_ayahs (take i (references api))).
Proof.
  split; [|split; [|split]].
  - intros s Hs Hid. apply list_elem_of_lookup in Hs as [i Hi].
    apply get_surahs_lookup in Hi as (r & Hr & ->). simpl in *.
    assert (i = 0%nat) as -> by lia. done.
  - intros s p Hs Hp Hgt Hid.
    apply list_elem_of_lookup in Hs as [i Hi].
    apply list_elem_of_lookup in Hp as [j Hj].
    apply get_surahs_lookup in Hi as (r & Hr & ->).
    apply get_surahs_lookup in Hj as (q & Hq & ->). simpl in *.
    assert (i = S j) as -> by lia.
    rewrite (take_S_r _ _ _ Hq), sum_ayahs_app. simpl. lia.
  - intros s Hs Hgt. apply list_elem_of_lookup in Hs as [i Hi].
    pose proof (lookup_lt_Some _ _ _ Hi) as Hlt.
    apply get_surahs_keys in Hi.
    destruct i as [|j]; [lia|].
    destruct (lookup_lt_is_Some_2 (get_surahs api) j) as [p Hp]; [lia|].
    exists p. split; [by eapply list_elem_of_lookup_2|].
    apply get_surahs_keys in Hp. lia.
  - intros i s Hi. apply get_surahs_lookup in Hi as (r & _ & ->). done.
Qed.

Lemma get_surahs_aya_base_running_sum_witness :
  aya_base sample_surah_2 = aya_base sample_surah_1 + n_aya sample_surah_1.
Proof.
  apply (proj1 (proj2 (get_surahs_aya_base_running_sum sample_api))).
  - apply (list_elem_of_lookup_2 _ 1%nat). reflexivity.
  - apply (list_elem_of_lookup_2 _ 0%nat). reflexivity.
  - simpl. lia.
  - reflexivity.
Defined.

(** ** Verse range resolver *)

Lemma required_ayat_closed (s : Surah) (start end_ : Z) :
  required_ayat s start end_ =
  (λ n, n + aya_base s) <$> py_range start (end_ + 1).
Proof. unfold required_ayat. by rewrite fold_left_snoc. Qed.

Lemma fetch_text_ok (json_loads : pystr -> option json) (api : Api) (aya : Z) :
  fetches json_loads api aya ->
  fetch_text json_loads api aya = Ok (JStr (fetched json_loads api aya)).
Proof. intros [t Ht]. unfold fetched. by rewrite Ht. Qed.

(** A lookup fails with the [FetchError] of line 124 or with what line
    122 raises, never with another error. *)
Lemma fetch_text_raise (json_loads : pystr -> option json) (api : Api)
    (aya : Z) (e : exn) :
  fetch_text json_loads api aya = Raise e -> lookup_error e.
Proof.
  unfold fetch_text, response_text.
  destruct (status_code (ayah api aya) =? 200); [|by intros [= <-]].
  destruct (utf8_decode _) as [body|]; [|by intros [= <-]].
  destruct (json_loads _) as [parsed|]; [|by intros [= <-]].
  destruct parsed as [| | | | | |members]; simpl; try by intros [= <-].
  destruct (dict_get (lit "data") members) as [data|]; simpl;
    [|by intros [= <-]].
  destruct data as [| | | | | |inner]; simpl; try by intros [= <-].
  destruct (dict_get (lit "text") inner); simpl; [done|by intros [= <-]].
Qed.

(** Past the first position nothing is removed. *)
Lemma fetch_ayat_rest (json_loads : pystr -> option json) (api : Api) (reciter : pystr) (remove : bool)
    (ayat : list Z) :
  (forall aya, aya ∈ ayat -> fetches json_loads api aya) ->
  forall i acc, 0 < i ->
    fetch_ayat json_loads api reciter remove i ayat acc =
    Ok (acc ++ (recitation_at json_loads api reciter remove false <$> ayat)).
Proof.
  induction ayat as [|aya ayat IH]; intros Hok i acc Hi.
  - simpl. by rewrite app_nil_r.
  - cbn [fetch_ayat]. rewrite fetch_text_ok by (apply Hok; left).
    replace (i =? 0) with false by lia. simpl.
    rewrite IH; [|intros; apply Hok; by right|lia].
    by rewrite <- app_assoc.
Qed.

Lemma fetch_ayat_first (json_loads : pystr -> option json) (api : Api) (reciter : pystr) (remove : bool)
    (aya : Z) (acc : list Recitation) (rest : list Z) :
  (forall a, a ∈ aya :: rest -> fetches json_loads api a) ->
  fetch_ayat json_loads api reciter remove 0 (aya :: rest) acc =
  Ok (acc ++ recitation_at json_loads api reciter remove true aya
          :: (recitation_at json_loads api reciter remove false <$> rest)).
Proof.
  intros Hok. cbn [fetch_ayat]. rewrite fetch_text_ok by (apply Hok; left).
  destruct remove; simpl;
    (rewrite fetch_ayat_rest; [|intros; apply Hok; by right|lia]);
    by rewrite <- app_assoc.
Qed.

(** The loop only fails on a verse whose text cannot be fetched. *)
Lemma fetch_ayat_raise (json_loads : pystr -> option json) (api : Api)
    (reciter : pystr) (remove : bool) (ayat : list Z) :
  forall i acc e,
    fetch_ayat json_loads api reciter remove i ayat acc = Raise e ->
    lookup_error e.
Proof.
  induction ayat as [|aya ayat IH]; intros i acc e H; [done|].
  cbn [fetch_ayat] in H.
  destruct (fetch_text json_loads api aya) as [v|e'] eqn:Hv;
    [|injection H as <-; by eapply fetch_text_raise].
  simpl in H.
  destruct ((i =? 0) && remove); simpl in H;
    destruct v; simpl in H; try (by injection H as <-); by eapply IH.
Qed.

(** With a known reciter and a known surah the resolver is the three
    range checks followed by the fetch loop. *)
Lemma get_recitations_known (json_loads : pystr -> option json) (api : Api)
    (reciter_number surah_number start end_ : Z) (r : Reciter) (s : Surah) :
  known_reciter api reciter_number r ->
  known_surah api surah_number s ->
  get_recitations json_loads api reciter_number surah_number start end_ =
    if end_ >? n_aya s then Raise (range_error_end s end_)
    else if start <? 1 then Raise range_error_start
    else if end_ <? start then Raise range_error_order
    else fetch_ayat json_loads api (reciter_code r) (remove_bismillah s start) 0
                    (required_ayat s start end_) [].
Proof.
  intros (Hr & <- & Hcode) (Hs & <-). unfold get_recitations.
  rewrite (filter_key_singleton reciter_id _ 1 r), (filter_key_singleton surah_id _ 1 s);
    try done; [|apply get_surahs_keys|apply get_reciters_keys].
  simpl. rewrite bool_decide_false by done.
  rewrite bool_decide_true; [done|].
  apply list_elem_of_fmap. by exists s.
Qed.

(** A reciter id that matches no reciter: the subscript [0] of the empty
    list of matches raises before the test that follows it. *)
Lemma get_recitations_unknown_reciter (json_loads : pystr -> option json) (api : Api)
    (reciter_number surah_number start end_ : Z) :
  (forall r, r ∈ get_reciters api -> reciter_id r <> reciter_number) ->
  get_recitations json_loads api reciter_number surah_number start end_ = Raise IndexError.
Proof.
  intros H. unfold get_recitations.
  replace (filter _ (get_reciters api)) with (@nil Reciter); [done|].
  symmetry. induction (get_reciters api) as [|r l IH]; [done|].
  rewrite filter_cons_False by (apply H; left).
  apply IH. intros r' Hr'. apply H. by right.
Qed.

Lemma py_range_cons (a b : Z) :
  a < b -> py_range a b = a :: py_range (a + 1) b.
Proof.
  intros Hab. unfold py_range.
  replace (Z.to_nat (b - a)) with (S (Z.to_nat (b - (a + 1)))) by lia.
  simpl. f_equal; [lia|].
  rewrite <- seq_shift, map_map. apply map_ext. intros k. lia.
Qed.

Lemma py_range_elem (a b n : Z) : n ∈ py_range a b -> a <= n < b.
Proof.
  unfold py_range. intros H. apply list_elem_of_fmap in H as (k & -> & Hk).
  apply elem_of_seq in Hk. lia.
Qed.

Lemma required_ayat_seq (s : Surah) (start end_ : Z) :
  required_ayat s start end_ =
  (λ i : nat, start + Z.of_nat i + aya_base s)
    <$> seq 0 (Z.to_nat (end_ - start + 1)).
Proof.
  rewrite required_ayat_closed. unfold py_range.
  replace (end_ + 1 - start) with (end_ - start + 1) by lia.
  by rewrite <- list_fmap_compose.
Qed.

(** The result of a valid request, element by element. *)
Lemma get_recitations_valid (json_loads : pystr -> option json) (api : Api)
    (reciter_number surah_number start end_ : Z) (r : Reciter) (s : Surah) :
  known_reciter api reciter_number r ->
  known_surah api surah_number s ->
  1 <= start -> start <= end_ -> end_ <= n_aya s ->
  (forall k, start <= k <= end_ ->
     fetches json_loads api (k + aya_base s)) ->
  get_recitations json_loads api reciter_number surah_number start end_ =
  Ok (recitation_at json_loads api (reciter_code r) (remove_bismillah s start) true
                    (start + aya_base s)
      :: (recitation_at json_loads api (reciter_code r) (remove_bismillah s start) false
            <$> ((λ n, n + aya_base s) <$> py_range (start + 1) (end_ + 1)))).
Proof.
  intros Hr Hs H1 H2 H3 Hok.
  rewrite (get_recitations_known _ _ _ _ _ _ r s) by done.
  replace (end_ >? n_aya s) with false by lia.
  replace (start <? 1) with false by lia.
  replace (end_ <? start) with false by lia.
  rewrite required_ayat_closed, py_range_cons by lia.
  rewrite fmap_cons, fetch_ayat_first; [done|].
  intros a Ha. apply elem_of_cons in Ha as [->|Ha]; [apply Hok; lia|].
  apply list_elem_of_fmap in Ha as (k & -> & Hk).
  apply py_range_elem in Hk. apply Hok. lia.
Qed.

Lemma range_errors_distinct (s : Surah) (end_ : Z) :
  range_error_end s end_ <> range_error_start /\
  range_error_end s end_ <> range_error_order /\
  range_error_start <> range_error_order.
Proof.
  unfold range_error_end, range_error_start, range_error_order.
  repeat split; intros H; injection H; discriminate.
Qed.

Lemma sample_reciter_known : known_reciter sample_api 1 sample_reciter.
Proof.
  split; [|split; [reflexivity|discriminate]].
  apply (list_elem_of_lookup_2 _ 0%nat). reflexivity.
Defined.

Lemma sample_surah_1_known : known_surah sample_api 1 sample_surah_1.
Proof.
  split; [|reflexivity]. apply (list_elem_of_lookup_2 _ 0%nat). reflexivity.
Defined.

Lemma sample_surah_2_known : known_surah sample_api 2 sample_surah_2.
Proof.
  split; [|reflexivity]. apply (list_elem_of_lookup_2 _ 1%nat). reflexivity.
Defined.

(** C1: the flag of line 113 does not depend on the surah, it is
    [start == 1] alone; on surah 1 from verse 1, whose text is the
    Bismillah, the phrase is removed and the first recitation is left
    with an empty text. *)
Theorem remove_bismillah_ignores_surah :
  (forall s start, remove_bismillah s start = (start =? 1)) /\
  fetch_text sample_json_loads sample_api 1 = Ok (JStr (BISMILLAH ++ [10%N])) /\
  get_recitations sample_json_loads sample_api 1 1 1 1 =
    Ok [ {| text := [];
            audio_link := audio_link_of (lit "ar.alafasy") 1 |} ].
Proof.
  split; [|split].
  - intros s start. unfold remove_bismillah. simpl. by destruct (start =? 1).
  - vm_compute. reflexivity.
  - vm_compute. reflexivity.
Qed.

(** C2: a reciter id that matches no reciter makes the resolver raise
    [IndexError], not [FetchError]: id 0 on every API (the ids count
    from 1), and id 2 where one reciter is listed. *)
Theorem get_recitations_unknown_reciter_raises_index_error :
  (forall json_loads api surah_number start end_,
     get_recitations json_loads api 0 surah_number start end_ = Raise IndexError) /\
  get_recitations sample_json_loads sample_api 2 1 1 1 = Raise IndexError.
Proof.
  split; [|reflexivity].
  intros json_loads api surah_number start end_.
  apply get_recitations_unknown_reciter. intros r Hr.
  apply list_elem_of_lookup in Hr as [i Hi].
  apply get_reciters_keys in Hi. lia.
Qed.

(** C3: with a known reciter and a known surah, the resolver raises the
    error of [end > n_aya] (which names the surah and its verse count)
    whenever that check fails; else the error of [start < 1] whenever
    that one fails; else the error of [end < start] whenever that one
    fails; and when the three checks pass it raises none of them. *)
Theorem get_recitations_range_checks (json_loads : pystr -> option json) (api : Api)
    (reciter_number surah_number start end_ : Z) (r : Reciter) (s : Surah) :
  known_reciter api reciter_number r ->
  known_surah api surah_number s ->
  (end_ > n_aya s ->
     get_recitations json_loads api reciter_number surah_number start end_ =
     Raise (range_error_end s end_)) /\
  (end_ <= n_aya s -> start < 1 ->
     get_recitations json_loads api reciter_number surah_number start end_ =
     Raise range_error_start) /\
  (end_ <= n_aya s -> 1 <= start -> end_ < start ->
     get_recitations json_loads api reciter_number surah_number start end_ =
     Raise range_error_order) /\
  (end_ <= n_aya s -> 1 <= start -> start <= end_ ->
     forall msg,
       get_recitations json_loads api reciter_number surah_number start end_ <>
       Raise (Exception msg)).
Proof.
  intros Hr Hs. rewrite (get_recitations_known _ _ _ _ _ _ r s) by done.
  repeat split.
  - intros H. by replace (end_ >? n_aya s) with true by lia.
  - intros H1 H2. replace (end_ >? n_aya s) with false by lia.
    by replace (start <? 1) with true by lia.
  - intros H1 H2 H3. replace (end_ >? n_aya s) with false by lia.
    replace (start <? 1) with false by lia.
    by replace (end_ <? start) with true by lia.
  - intros H1 H2 H3 msg. replace (end_ >? n_aya s) with false by lia.
    replace (start <? 1) with false by lia.
    replace (end_ <? start) with false by lia.
    intros H. by apply fetch_ayat_raise in H.
Qed.

Lemma get_recitations_range_checks_witness :
  get_recitations sample_json_loads sample_api 1 1 1 8 = Raise (range_error_end sample_surah_1 8) /\
  get_recitations sample_json_loads sample_api 1 1 0 7 = Raise range_error_start /\
  get_recitations sample_json_loads sample_api 1 1 5 3 = Raise range_error_order /\
  get_recitations sample_json_loads sample_api 1 1 0 8 = Raise (range_error_end sample_surah_1 8).
Proof.
  pose proof (get_recitations_range_checks sample_json_loads sample_api 1 1) as H.
  split; [|split; [|split]].
  - apply (H 1 8 _ _ sample_reciter_known sample_surah_1_known). simpl. lia.
  - apply (H 0 7 _ _ sample_reciter_known sample_surah_1_known); simpl; lia.
  - apply (H 5 3 _ _ sample_reciter_known sample_surah_1_known); simpl; lia.
  - apply (H 0 8 _ _ sample_reciter_known sample_surah_1_known). simpl. lia.
Defined.

(** C4: a valid request with a known reciter and surah, all of whose
    verse texts can be fetched, returns [end - start + 1] recitations;
    the verse numbers resolved are [start + aya_base], ...,
    [end + aya_base] in this order, and the audio link at position [i]
    is the CDN address
    [https://cdn.islamic.network/quran/audio/192/<code>/<number>.mp3]
    of the reciter's code and of the number [start + i + aya_base]. *)
Theorem get_recitations_valid_range (json_loads : pystr -> option json)
    (api : Api) (reciter_number surah_number start end_ : Z)
    (r : Reciter) (s : Surah) :
  known_reciter api reciter_number r ->
  known_surah api surah_number s ->
  1 <= start -> start <= end_ -> end_ <= n_aya s ->
  (forall k, start <= k <= end_ ->
     fetches json_loads api (k + aya_base s)) ->
  exists recitations,
    get_recitations json_loads api reciter_number surah_number start end_
      = Ok recitations /\
    length recitations = Z.to_nat (end_ - start + 1) /\
    required_ayat s start end_ =
      (λ i : nat, start + Z.of_nat i + aya_base s)
        <$> seq 0 (Z.to_nat (end_ - start + 1)) /\
    audio_link <$> recitations =
      (λ i : nat,
         lit "https://cdn.islamic.network/quran/audio/192/"
         ++ reciter_code r ++ lit "/"
         ++ str_of_int (start + Z.of_nat i + aya_base s) ++ lit ".mp3")
        <$> seq 0 (Z.to_nat (end_ - start + 1)).
Proof.
  intros Hr Hs H1 H2 H3 Hok. eexists. split.
  { by apply (get_recitations_valid _ _ _ _ _ _ r s). }
  split; [|split].
  - simpl. rewrite !length_fmap. unfold py_range.
    rewrite length_fmap, length_seq. lia.
  - apply required_ayat_seq.
  - transitivity (audio_link_of (reciter_code r) <$> required_ayat s start end_).
    + rewrite required_ayat_closed, (py_range_cons start) by lia.
      rewrite !fmap_cons. simpl. f_equal.
      rewrite <- !list_fmap_compose. done.
    + rewrite required_ayat_seq, <- list_fmap_compose. done.
Qed.

Lemma get_recitations_valid_range_witness :
  exists recitations,
    get_recitations sample_json_loads sample_api 1 2 1 3 = Ok recitations /\
    length recitations = 3%nat /\
    required_ayat sample_surah_2 1 3 = [8; 9; 10] /\
    audio_link <$> recitations =
      [lit "https://cdn.islamic.network/quran/audio/192/ar.alafasy/8.mp3";
       lit "https://cdn.islamic.network/quran/audio/192/ar.alafasy/9.mp3";
       lit "https://cdn.islamic.network/quran/audio/192/ar.alafasy/10.mp3"].
Proof.
  destruct (get_recitations_valid_range sample_json_loads sample_api 1 2 1 3
              sample_reciter sample_surah_2
              sample_reciter_known sample_surah_2_known)
    as (recitations & Hrun & Hlen & Hidx & Hlinks).
  - lia.
  - lia.
  - simpl. lia.
  - intros k Hk.
    assert (k = 1 \/ k = 2 \/ k = 3) as [->|[->| ->]] by lia; sample_fetch.
  - exists recitations. split; [exact Hrun|]. split; [exact Hlen|].
    split; [exact Hidx|exact Hlinks].
Defined.

(** ** Replacing every occurrence *)

Lemma starts_with_spec (p s : pystr) :
  starts_with p s = true <-> exists r, s = p ++ r.
Proof.
  revert s. induction p as [|a p IH]; intros s; simpl.
  - split; [intros _; by exists s|done].
  - destruct s as [|b s].
    + split; [done|]. intros [r Hr]. discriminate.
    + rewrite andb_true_iff, N.eqb_eq, IH. split.
      * intros [-> [r ->]]. by exists r.
      * intros [r Hr]. injection Hr as -> ->. split; [done|by exists r].
Qed.

Lemma starts_with_app (p t : pystr) : starts_with p (p ++ t) = true.
Proof. apply starts_with_spec. by exists t. Qed.

(** [py_in] finds every occurrence. *)
Lemma py_in_complete (p s pre suf : pystr) :
  s = pre ++ p ++ suf -> py_in p s = true.
Proof.
  intros ->. unfold py_in. apply existsb_exists. exists (length pre). split.
  - apply in_seq. rewrite length_app. lia.
  - rewrite drop_app_length. apply starts_with_app.
Qed.

Lemma py_in_tail (p : pystr) (c : char) (s : pystr) :
  py_in p (c :: s) = false -> py_in p s = false.
Proof.
  intros H. destruct (py_in p s) eqn:Hs; [|done].
  unfold py_in in Hs. apply existsb_exists in Hs as (i & _ & Hi).
  apply starts_with_spec in Hi as [r Hr].
  rewrite <- H. symmetry.
  apply (py_in_complete p (c :: s) (c :: take i s) r).
  rewrite <- app_comm_cons, <- Hr, take_drop. done.
Qed.

Lemma unbordered_spec (p : pystr) (k : nat) :
  unbordered p = true -> (0 < k < length p)%nat ->
  drop k p <> take (length p - k) p.
Proof.
  unfold unbordered. rewrite forallb_forall. intros H Hk.
  specialize (H k). rewrite negb_true_iff, bool_decide_eq_false in H.
  apply H, in_seq. lia.
Qed.

(** In front of an occurrence of an unbordered [old], a stretch of text
    free of [old] holds the start of no other occurrence. *)
Lemma no_early_match (old seg t : pystr) :
  unbordered old = true -> py_in old seg = false -> seg <> [] ->
  starts_with old (seg ++ old ++ t) = false.
Proof.
  intros Hub Hfree Hne.
  destruct (starts_with old (seg ++ old ++ t)) eqn:Hsw; [|done].
  apply starts_with_spec in Hsw as [r Hr]. exfalso.
  destruct (decide (length old <= length seg)%nat) as [Hle|Hgt].
  - assert (old = take (length old) seg) as Hold.
    { rewrite <- (take_app_le seg (old ++ t)) by done.
      rewrite Hr. by rewrite take_app_length. }
    rewrite (py_in_complete old seg [] (drop (length old) seg)) in Hfree;
      [done|].
    simpl. rewrite Hold at 1. by rewrite take_drop.
  - assert (old = seg ++ take (length old - length seg) old) as Hold.
    { transitivity (take (length old) (seg ++ old ++ t)).
      - rewrite Hr. by rewrite take_app_length.
      - rewrite take_app_ge by lia. f_equal. apply take_app_le. lia. }
    assert (length seg <> 0%nat) by (by destruct seg).
    apply (unbordered_spec old (length seg) Hub); [lia|].
    rewrite Hold at 1. by rewrite drop_app_length.
Qed.

Lemma replace_scan_skip (old new : pystr) (k : nat) (s : pystr) :
  replace_scan old new k s = replace_scan old new 0 (drop k s).
Proof.
  revert k. induction s as [|c s IH]; intros k.
  - by destruct k.
  - destruct k as [|k]; [done|]. simpl. apply IH.
Qed.

Lemma replace_scan_match (old new t : pystr) :
  old <> [] ->
  replace_scan old new 0 (old ++ t) = new ++ replace_scan old new 0 t.
Proof.
  intros Hne. destruct old as [|a old]; [done|].
  change ((a :: old) ++ t) with (a :: (old ++ t)).
  cbn [replace_scan].
  change (a :: (old ++ t)) with ((a :: old) ++ t).
  rewrite starts_with_app. f_equal.
  rewrite replace_scan_skip. simpl. rewrite Nat.sub_0_r.
  by rewrite drop_app_length.
Qed.

Lemma replace_scan_free (old new seg : pystr) :
  old <> [] -> py_in old seg = false ->
  replace_scan old new 0 seg = seg.
Proof.
  intros Hne. induction seg as [|c seg IH]; intros Hfree; [done|].
  cbn [replace_scan].
  destruct (starts_with old (c :: seg)) eqn:Hsw.
  - apply starts_with_spec in Hsw as [r Hr].
    rewrite (py_in_complete old (c :: seg) [] r) in Hfree; done.
  - f_equal. apply IH. by eapply py_in_tail.
Qed.

Lemma replace_scan_segment (old new seg t : pystr) :
  unbordered old = true -> old <> [] -> py_in old seg = false ->
  replace_scan old new 0 (seg ++ old ++ t) =
  seg ++ new ++ replace_scan old new 0 t.
Proof.
  intros Hub Hne. induction seg as [|c seg IH]; intros Hfree.
  - by apply (replace_scan_match old new t).
  - change ((c :: seg) ++ old ++ t) with (c :: (seg ++ old ++ t)).
    cbn [replace_scan].
    change (c :: (seg ++ old ++ t)) with ((c :: seg) ++ old ++ t).
    rewrite no_early_match by done.
    rewrite IH by (by eapply py_in_tail). done.
Qed.

Lemma replace_nonempty (s old new : pystr) :
  old <> [] -> replace s old new = replace_scan old new 0 s.
Proof. by destruct old. Qed.

(** [str.replace] undoes [join]: a text cut by an unbordered, non-empty
    [old] into pieces free of [old] has each [old] replaced by [new]. *)
Lemma replace_join (old new : pystr) (segs : list pystr) :
  unbordered old = true -> old <> [] ->
  Forall (λ seg, py_in old seg = false) segs ->
  replace (join old segs) old new = join new segs.
Proof.
  intros Hub Hne Hfree. rewrite replace_nonempty by done.
  induction Hfree as [|seg segs Hseg Hsegs IH]; [done|].
  destruct segs as [|seg' segs].
  - simpl. by apply replace_scan_free.
  - change (join old (seg :: seg' :: segs))
      with (seg ++ old ++ join old (seg' :: segs)).
    change (join new (seg :: seg' :: segs))
      with (seg ++ new ++ join new (seg' :: segs)).
    rewrite replace_scan_segment by done. by rewrite IH.
Qed.

Lemma join_empty (segs : list pystr) : join [] segs = concat segs.
Proof.
  induction segs as [|seg segs IH]; [done|].
  destruct segs as [|seg' segs].
  - simpl. by rewrite app_nil_r.
  - change (join [] (seg :: seg' :: segs))
      with (seg ++ [] ++ join [] (seg' :: segs)).
    by rewrite IH.
Qed.

Lemma BISMILLAH_unbordered : unbordered BISMILLAH = true.
Proof. vm_compute. reflexivity. Qed.

(** C9: when the removal is on for a resolved range, and the text of
    its first verse is any number of pieces free of the Bismillah with
    the Bismillah between each two of them, the first recitation is the
    pieces put together, trimmed: every occurrence of the phrase is gone,
    wherever it stood, not the leading one alone. *)
Theorem get_recitations_removes_every_bismillah
    (json_loads : pystr -> option json) (api : Api)
    (reciter_number surah_number start end_ : Z) (r : Reciter) (s : Surah)
    (segs : list pystr) :
  known_reciter api reciter_number r ->
  known_surah api surah_number s ->
  1 <= start -> start <= end_ -> end_ <= n_aya s ->
  (forall k, start <= k <= end_ ->
     fetches json_loads api (k + aya_base s)) ->
  remove_bismillah s start = true ->
  fetch_text json_loads api (start + aya_base s)
    = Ok (JStr (join BISMILLAH segs)) ->
  Forall (λ seg, py_in BISMILLAH seg = false) segs ->
  exists first rest,
    get_recitations json_loads api reciter_number surah_number start end_ =
      Ok (first :: rest) /\
    text first = strip (concat segs).
Proof.
  intros Hr Hs H1 H2 H3 Hok Hon Htext Hfree.
  rewrite (get_recitations_valid _ _ _ _ _ _ r s) by done.
  eexists _, _. split; [done|].
  unfold recitation_at, fetched. cbn [text]. rewrite Hon, Htext. cbn [andb].
  rewrite replace_join, join_empty; [done| |done|done].
  apply BISMILLAH_unbordered.
Qed.

Lemma get_recitations_removes_every_bismillah_witness :
  exists first rest,
    get_recitations sample_json_loads sample_api 1 2 1 2 = Ok (first :: rest) /\
    text first = lit "alif  lam  mim".
Proof.
  apply (get_recitations_removes_every_bismillah sample_json_loads sample_api 1 2 1 2
           sample_reciter sample_surah_2
           [lit "alif "; lit " lam "; lit " mim"]
           sample_reciter_known sample_surah_2_known).
  - lia.
  - lia.
  - simpl. lia.
  - intros k Hk. assert (k = 1 \/ k = 2) as [->| ->] by lia; sample_fetch.
  - reflexivity.
  - vm_compute. reflexivity.
  - repeat constructor.
Defined.

(** ** Batch downloader *)

Section DownloaderFacts.

Context {world : Type}.
Variable download_file : world -> pystr -> pystr -> bool * world.

Lemma download_loop_ok (destination : pystr) (recitations : list pystr) :
  forall w i audios,
    downloads_succeed world download_file destination w i recitations ->
    fst (download_loop world download_file destination w i recitations audios) =
    Ok (audios ++ ((λ k : nat, recitation_path destination (i + Z.of_nat k))
                     <$> seq 0 (length recitations))).
Proof.
  induction recitations as [|link rest IH]; intros w i audios Hok.
  - simpl. by rewrite app_nil_r.
  - simpl in Hok. destruct Hok as [Hfst Hrest]. cbn [download_loop].
    destruct (download_file w link (recitation_path destination i))
      as [succsess w'] eqn:Hdl.
    simpl in Hfst, Hrest. subst succsess. cbn [negb].
    rewrite IH by done. f_equal.
    rewrite <- app_assoc. f_equal. cbn [length seq fmap list_fmap].
    rewrite Z.add_0_r. f_equal.
    rewrite <- seq_shift, <- list_fmap_compose.
    apply list_fmap_ext. intros _ k _. simpl. f_equal. lia.
Qed.

End DownloaderFacts.

Lemma recitation_path_form (destination : pystr) (i : Z) :
  recitation_path destination i =
  if bool_decide (destination = []) || bool_decide (last destination = Some 47%N)
  then destination ++ lit "recitation_" ++ str_of_int i ++ lit ".mp3"
  else destination ++ lit "/" ++ lit "recitation_" ++ str_of_int i ++ lit ".mp3".
Proof. reflexivity. Qed.

(** C8: when the destination directory is there or can be made and every
    download succeeds, [download_recitations] returns as many file names
    as there are links; the name at position [i] is the join of the
    destination and [recitation_<i>.mp3], that is
    [<destination>/recitation_<i>.mp3], the separator being added
    unless the destination is empty or already ends with it. *)
Theorem download_recitations_paths (world : Type)
    (os_path_exists : world -> pystr -> bool)
    (os_mkdir : world -> pystr -> result world)
    (download_file : world -> pystr -> pystr -> bool * world)
    (w w1 : world) (recitations : list pystr) (destination : pystr) :
  ensure_destination world os_path_exists os_mkdir w destination = Ok w1 ->
  downloads_succeed world download_file destination w1 0 recitations ->
  exists audios,
    fst (download_recitations world os_path_exists os_mkdir download_file
           w recitations destination) = Ok audios /\
    length audios = length recitations /\
    (forall (i : nat) link, recitations !! i = Some link ->
       audios !! i =
       Some (os_path_join destination
               (lit "recitation_" ++ str_of_int (Z.of_nat i) ++ lit ".mp3"))) /\
    (destination <> [] -> last destination <> Some 47%N ->
     forall (i : nat) link, recitations !! i = Some link ->
       audios !! i =
       Some (destination ++ lit "/recitation_" ++ str_of_int (Z.of_nat i)
             ++ lit ".mp3")).
Proof.
  intros Hdir Hok. unfold download_recitations. rewrite Hdir.
  rewrite download_loop_ok by done. eexists. split; [done|].
  assert (Hlook : forall (i : nat) link, recitations !! i = Some link ->
            ([] ++ ((λ k : nat, recitation_path destination (0 + Z.of_nat k))
                      <$> seq 0 (length recitations))) !! i =
            Some (recitation_path destination (Z.of_nat i))).
  { intros i link Hi. apply lookup_lt_Some in Hi. simpl.
    rewrite list_lookup_fmap, lookup_seq_lt by done. done. }
  split; [|split].
  - simpl. by rewrite length_fmap, length_seq.
  - exact Hlook.
  - intros Hne Hsep i link Hi. etrans; [exact (Hlook i link Hi)|]. f_equal.
    rewrite recitation_path_form.
    rewrite (bool_decide_false (destination = [])) by done.
    rewrite (bool_decide_false (last destination = Some 47%N)) by done.
    done.
Qed.

Lemma download_recitations_paths_witness :
  exists audios,
    fst (download_recitations (list (pystr * pystr))
           (fun _ _ => true) (fun w _ => Ok w) sample_download_file
           [] [lit "https://a/8.mp3"; lit "https://a/9.mp3"] (lit "./temp/mp3/"))
    = Ok audios /\
    length audios = 2%nat /\
    audios !! 1%nat = Some (lit "./temp/mp3/recitation_1.mp3").
Proof.
  destruct (download_recitations_paths (list (pystr * pystr))
              (fun _ _ => true) (fun w _ => Ok w) sample_download_file
              [] [] [lit "https://a/8.mp3"; lit "https://a/9.mp3"]
              (lit "./temp/mp3/"))
    as (audios & Hrun & Hlen & Hpaths & _).
  - reflexivity.
  - simpl. auto.
  - exists audios. split; [exact Hrun|]. split; [exact Hlen|].
    apply (Hpaths 1%nat (lit "https://a/9.mp3")). reflexivity.
Defined.

(** ** Caption writer *)

Lemma caption_start_S (durations : list float) (i : nat) (d : float) :
  durations !! i = Some d ->
  caption_start durations (S i) = py_add (caption_start durations i) d.
Proof.
  intros Hd. unfold caption_start.
  rewrite (take_S_r _ _ _ Hd), fold_left_app. done.
Qed.

Section CaptionFacts.

Variable float_repr : float -> pystr.
Variable openable : pystr -> bool.

Lemma file_write_insert (fs : filesystem) (path contents s : pystr) :
  file_write (<[path := contents]> fs) path s = <[path := contents ++ s]> fs.
Proof.
  unfold file_write. apply map_eq. intros p.
  destruct (decide (p = path)) as [->|Hne].
  - by rewrite lookup_alter_eq, !lookup_insert_eq.
  - by rewrite lookup_alter_ne, !lookup_insert_ne.
Qed.

(** The loop from entry [k] on, when [k] entries are written already. *)
Lemma caption_loop_from (texts : list pystr) (durations : list float)
    (destination : pystr) (fs : filesystem) (n : nat) :
  forall k contents,
    length texts = length durations ->
    (k + n)%nat = length durations ->
    caption_loop float_repr texts durations destination (seq k n)
                 (<[destination := contents]> fs) (caption_start durations k) =
    (Ok tt,
     <[destination :=
         contents ++
         concat (imap (fun i t =>
                         caption_line float_repr
                           (caption_start durations (k + i))
                           (caption_end durations (k + i)) t)
                      (drop k texts))]> fs).
Proof.
  induction n as [|n IH]; intros k contents Hlen Hk.
  - simpl. rewrite drop_ge by lia. simpl. by rewrite app_nil_r.
  - cbn [seq caption_loop].
    destruct (lookup_lt_is_Some_2 durations k) as [d Hd]; [lia|].
    destruct (lookup_lt_is_Some_2 texts k) as [t Ht]; [lia|].
    rewrite Hd, Ht, file_write_insert, <- (caption_start_S _ _ _ Hd).
    rewrite IH by lia.
    rewrite (drop_S _ _ _ Ht). cbn [imap concat].
    rewrite Nat.add_0_r. unfold caption_end at 2. rewrite Hd.
    rewrite (caption_start_S _ _ _ Hd), <- app_assoc.
    do 5 f_equal. apply imap_ext. intros i x _. simpl.
    by rewrite Nat.add_succ_r.
Qed.

End CaptionFacts.

(** C5: for texts and durations of one length, and a destination that
    can be opened, the file written holds one line per entry, in the
    order of the input; the line of entry [i] shows as start the sum of
    the durations before it and as end that start plus its own duration.
    For the durations 3.0, 4.5, 2.0 the starts are 0.0, 3.0, 7.5 and the
    ends 3.0, 7.5, 9.5. *)
Theorem generate_ayat_caption_file_timing (float_repr : float -> pystr)
    (openable : pystr -> bool) (fs : filesystem)
    (ayat_texts : list pystr) (ayat_durations : list float)
    (destination : pystr) :
  length ayat_texts = length ayat_durations ->
  openable destination = true ->
  generate_ayat_caption_file float_repr openable fs ayat_texts ayat_durations
                             destination =
    (Ok tt,
     <[destination :=
         concat (caption_lines float_repr ayat_texts ayat_durations)]> fs) /\
  length (caption_lines float_repr ayat_texts ayat_durations) =
    length ayat_texts /\
  (forall i d, ayat_durations !! i = Some d ->
     caption_start ayat_durations i =
       fold_left py_add (take i ayat_durations) (PyInt 0) /\
     caption_end ayat_durations i = py_add (caption_start ayat_durations i) d) /\
  to_float <$> (caption_start [3; 4.5; 2]%float <$> [0; 1; 2]%nat) =
    [0; 3; 7.5]%float /\
  to_float <$> (caption_end [3; 4.5; 2]%float <$> [0; 1; 2]%nat) =
    [3; 7.5; 9.5]%float.
Proof.
  intros Hlen Hopen. split; [|split; [|split; [|split]]].
  - unfold generate_ayat_caption_file, open_w.
    rewrite Hlen, Nat.eqb_refl, Hopen. cbn [negb].
    pose proof (caption_loop_from float_repr ayat_texts ayat_durations
                  destination fs (length ayat_durations) 0 [] Hlen eq_refl)
      as Hloop.
    exact Hloop.
  - apply length_imap.
  - intros i d Hd. split; [done|]. unfold caption_end. by rewrite Hd.
  - reflexivity.
  - reflexivity.
Qed.

Lemma generate_ayat_caption_file_timing_witness :
  generate_ayat_caption_file sample_float_repr (fun _ => true)
    (<[lit "captions.txt" := lit "old contents"]> ∅)
    [lit "a"; lit "b"; lit "c"] [3; 4.5; 2]%float (lit "captions.txt") =
  (Ok tt,
   <[lit "captions.txt" :=
       lit "0:3.0:a" ++ [10%N] ++ lit "3.0:7.5:b" ++ [10%N]
       ++ lit "7.5:9.5:c" ++ [10%N]]>
     (<[lit "captions.txt" := lit "old contents"]> ∅)).
Proof.
  apply (generate_ayat_caption_file_timing sample_float_repr (fun _ => true)
           (<[lit "captions.txt" := lit "old contents"]> ∅)
           [lit "a"; lit "b"; lit "c"] [3; 4.5; 2]%float (lit "captions.txt"));
    reflexivity.
Defined.

(** C6: for texts and durations of different lengths the caption writer
    raises the size-mismatch error and leaves every file as it was; the
    test comes before the file is opened, so this holds whether or not
    the destination could be opened. *)
Theorem generate_ayat_caption_file_size_mismatch (float_repr : float -> pystr)
    (openable : pystr -> bool) (fs : filesystem)
    (ayat_texts : list pystr) (ayat_durations : list float)
    (destination : pystr) :
  length ayat_texts <> length ayat_durations ->
  generate_ayat_caption_file float_repr openable fs ayat_texts ayat_durations
                             destination =
  (Raise size_mismatch, fs).
Proof.
  intros Hlen. unfold generate_ayat_caption_file.
  destruct (Nat.eqb_spec (length ayat_durations) (length ayat_texts)) as [E|E];
    [by symmetry in E|done].
Qed.

Lemma generate_ayat_caption_file_size_mismatch_witness :
  generate_ayat_caption_file sample_float_repr (fun _ => true)
    (<[lit "captions.txt" := lit "old contents"]> ∅)
    [lit "a"; lit "b"; lit "c"] [3; 4.5]%float (lit "captions.txt") =
  (Raise size_mismatch, <[lit "captions.txt" := lit "old contents"]> ∅).
Proof.
  apply (generate_ayat_caption_file_size_mismatch sample_float_repr
           (fun _ => true)).
  simpl. lia.
Defined.

(** C10: with no text and no duration the caption writer passes the size
    test, opens the destination and returns normally; the destination is
    then an empty file, whatever it held before, and no other file has
    changed. *)
Theorem generate_ayat_caption_file_empty (float_repr : float -> pystr)
    (openable : pystr -> bool) (fs : filesystem) (destination : pystr) :
  openable destination = true ->
  generate_ayat_caption_file float_repr openable fs [] [] destination =
    (Ok tt, <[destination := []]> fs) /\
  (<[destination := []]> fs : filesystem) !! destination = Some [] /\
  (forall path, path <> destination ->
     (<[destination := []]> fs : filesystem) !! path = fs !! path).
Proof.
  intros Hopen. split; [|split].
  - unfold generate_ayat_caption_file, open_w. simpl. by rewrite Hopen.
  - apply lookup_insert_eq.
  - intros path Hne. by apply lookup_insert_ne.
Qed.

Lemma generate_ayat_caption_file_empty_witness :
  generate_ayat_caption_file sample_float_repr (fun _ => true)
    (<[lit "captions.txt" := lit "old contents"]> ∅) [] [] (lit "captions.txt") =
  (Ok tt, <[lit "captions.txt" := []]>
            (<[lit "captions.txt" := lit "old contents"]> ∅)).
Proof.
  apply (generate_ayat_caption_file_empty sample_float_repr (fun _ => true)).
  reflexivity.
Defined.

(** * Further properties *)

(** ** Metadata provider: what the listings hold *)

Lemma get_reciters_fold (eds : list Edition) :
  forall acc id,
    fold_left get_reciters_step eds (acc, id) =
    (acc ++ imap (fun i e =>
                    {| reciter_id := id + Z.of_nat i;
                       reciter_name := name e;
                       reciter_code := identifier e |})
                 (filter (λ e, language e = lit "ar") eds),
     id + Z.of_nat (length (filter (λ e, language e = lit "ar") eds))).
Proof.
  induction eds as [|e eds IH]; intros acc id.
  - simpl. by rewrite app_nil_r, Z.add_0_r.
  - cbn [fold_left]. unfold get_reciters_step at 2.
    rewrite filter_cons. case_bool_decide as Har.
    + rewrite decide_True by done. rewrite IH. cbn [imap length].
      rewrite <- app_assoc, Z.add_0_r. cbn [app]. f_equal; [|lia].
      do 2 f_equal. apply imap_ext. intros i x _. simpl. f_equal. lia.
    + rewrite decide_False by done. apply IH.
Qed.

(** X1: [get_reciters] keeps the Arabic editions alone, in the order of
    the listing, and numbers them from 1 without a gap; name and code
    are the edition's name and identifier. *)
Theorem get_reciters_closed_form (api : Api) :
  get_reciters api =
  imap (fun i e =>
          {| reciter_id := Z.of_nat i + 1;
             reciter_name := name e;
             reciter_code := identifier e |})
       (filter (λ e, language e = lit "ar") (editions api)).
Proof.
  unfold get_reciters. rewrite get_reciters_fold. simpl.
  apply imap_ext. intros i x _. f_equal. lia.
Qed.

Lemma get_reciters_id_range (api : Api) (n : Z) :
  (exists r, r ∈ get_reciters api /\ reciter_id r = n) <->
  1 <= n <= Z.of_nat (length (get_reciters api)).
Proof.
  split.
  - intros (r & Hr & <-). apply list_elem_of_lookup in Hr as [i Hi].
    pose proof (lookup_lt_Some _ _ _ Hi). apply get_reciters_keys in Hi. lia.
  - intros Hn.
    destruct (lookup_lt_is_Some_2 (get_reciters api) (Z.to_nat (n - 1)))
      as [r Hr]; [lia|].
    exists r. split; [by eapply list_elem_of_lookup_2|].
    apply get_reciters_keys in Hr. lia.
Qed.

Lemma get_surahs_length (api : Api) :
  length (get_surahs api) = length (references api).
Proof.
  unfold get_surahs. pose proof (get_surahs_loop_inv (references api)) as H.
  destruct (fold_left _ _ _) as [[surahs id] base]. simpl. apply H.
Qed.

(** X2: [get_surahs] returns one surah per reference, in the order of
    the listing: the one at position [i] has id [i + 1], the name and
    the verse count of reference [i], and the verse counts of the
    references before it, added up, as [aya_base]. *)
Theorem get_surahs_closed_form (api : Api) :
  get_surahs api =
  imap (fun i r =>
          {| surah_id := Z.of_nat i + 1;
             surah_name := ref_name r;
             aya_base := sum_ayahs (take i (references api));
             n_aya := numberOfAyahs r |})
       (references api).
Proof.
  apply list_eq. intros i. rewrite list_lookup_imap.
  destruct (get_surahs api !! i) as [s|] eqn:Hs.
  - apply get_surahs_lookup in Hs as (r & Hr & ->). by rewrite Hr.
  - apply lookup_ge_None in Hs. rewrite get_surahs_length in Hs.
    apply lookup_ge_None in Hs. by rewrite Hs.
Qed.

Lemma get_surahs_id_range (api : Api) (n : Z) :
  n ∈ surah_id <$> get_surahs api <->
  1 <= n <= Z.of_nat (length (references api)).
Proof.
  rewrite <- get_surahs_length. split.
  - intros H. apply list_elem_of_fmap in H as (s & -> & Hs).
    apply list_elem_of_lookup in Hs as [i Hi].
    pose proof (lookup_lt_Some _ _ _ Hi). apply get_surahs_keys in Hi. lia.
  - intros Hn.
    destruct (lookup_lt_is_Some_2 (get_surahs api) (Z.to_nat (n - 1)))
      as [s Hs]; [lia|].
    apply list_elem_of_fmap. exists s. split.
    + apply get_surahs_keys in Hs. lia.
    + by eapply list_elem_of_lookup_2.
Qed.

Lemma sum_ayahs_take_mono (refs : list SurahRef) (i j : nat) :
  Forall (λ r, 0 <= numberOfAyahs r) refs ->
  (i <= j)%nat ->
  sum_ayahs (take i refs) <= sum_ayahs (take j refs).
Proof.
  intros Hpos. revert i j.
  induction Hpos as [|r refs Hr Hrefs IH]; intros i j Hij.
  - by rewrite !take_nil.
  - destruct i as [|i]; destruct j as [|j]; simpl; try lia.
    + specialize (IH 0%nat j). rewrite take_0 in IH. simpl in IH. lia.
    + specialize (IH i j). lia.
Qed.

(** X3: when no verse count is negative, two verses of the listed surahs
    with the same number in the whole text are the same verse of the
    same surah: the runs [aya_base + 1 .. aya_base + n_aya] of two
    surahs never meet. *)
Theorem global_verse_index_injective (api : Api) (s t : Surah) (a b : Z) :
  Forall (λ r, 0 <= numberOfAyahs r) (references api) ->
  s ∈ get_surahs api -> t ∈ get_surahs api ->
  1 <= a <= n_aya s -> 1 <= b <= n_aya t ->
  a + aya_base s = b + aya_base t ->
  s = t /\ a = b.
Proof.
  intros Hpos Hs Ht Ha Hb Heq.
  apply list_elem_of_lookup in Hs as [i Hi].
  apply list_elem_of_lookup in Ht as [j Hj].
  pose proof Hi as Hi'. pose proof Hj as Hj'.
  apply get_surahs_lookup in Hi' as (r & Hr & Es).
  apply get_surahs_lookup in Hj' as (q & Hq & Et).
  assert (Hnext : forall (k : nat) (x : SurahRef), references api !! k = Some x ->
            sum_ayahs (take (S k) (references api)) =
            sum_ayahs (take k (references api)) + numberOfAyahs x).
  { intros k x Hx. rewrite (take_S_r _ _ _ Hx), sum_ayahs_app. simpl. lia. }
  destruct (Nat.lt_trichotomy i j) as [Hlt|[->|Hgt]].
  - pose proof (sum_ayahs_take_mono _ (S i) j Hpos ltac:(lia)) as Hm.
    rewrite (Hnext i r Hr) in Hm. subst s t. simpl in *. lia.
  - rewrite Hi in Hj. injection Hj as <-. split; [done|lia].
  - pose proof (sum_ayahs_take_mono _ (S j) i Hpos ltac:(lia)) as Hm.
    rewrite (Hnext j q Hq) in Hm. subst s t. simpl in *. lia.
Qed.

Lemma global_verse_index_injective_witness :
  sample_surah_1 = sample_surah_1 /\ 7 = 7.
Proof.
  apply (global_verse_index_injective sample_api sample_surah_1 sample_surah_1 7 7).
  - repeat constructor; simpl; lia.
  - apply sample_surah_1_known.
  - apply sample_surah_1_known.
  - simpl. lia.
  - simpl. lia.
  - reflexivity.
Defined.

(** ** Verse range resolver: the errors *)

(** Once the reciter is found, what is left is the test of its code, the
    test of the surah id, and the rest of the function. *)
Lemma get_recitations_with_reciter (json_loads : pystr -> option json) (api : Api)
    (reciter_number surah_number start end_ : Z) (r : Reciter) :
  r ∈ get_reciters api -> reciter_id r = reciter_number ->
  get_recitations json_loads api reciter_number surah_number start end_ =
    if bool_decide (reciter_code r = [])
    then Raise (FetchError (lit "Reciter id doesnt exist"))
    else if negb (bool_decide (surah_number ∈ surah_id <$> get_surahs api))
    then Raise (FetchError (lit "Surah id doesnt exist"))
    else
      surah ← item0 (filter (λ s, surah_id s = surah_number) (get_surahs api));
      if end_ >? n_aya surah then Raise (range_error_end surah end_)
      else if start <? 1 then Raise range_error_start
      else if end_ <? start then Raise range_error_order
      else
        fetch_ayat json_loads api (reciter_code r) (remove_bismillah surah start) 0
                   (required_ayat surah start end_) [].
Proof.
  intros Hr <-. unfold get_recitations.
  rewrite (filter_key_singleton reciter_id _ 1 r);
    [done|apply get_reciters_keys|done].
Qed.

(** X4: the resolver raises [IndexError] exactly when the reciter id is
    outside [1 .. N], [N] being the number of reciters listed; no other
    input makes it raise this error. *)
Theorem get_recitations_index_error_iff (json_loads : pystr -> option json) (api : Api)
    (reciter_number surah_number start end_ : Z) :
  get_recitations json_loads api reciter_number surah_number start end_ = Raise IndexError
  <->
  ~ (1 <= reciter_number <= Z.of_nat (length (get_reciters api))).
Proof.
  split.
  - intros Hraise Hin. apply get_reciters_id_range in Hin as (r & Hr & Hid).
    rewrite (get_recitations_with_reciter _ _ _ _ _ _ r Hr Hid) in Hraise.
    case_bool_decide; [discriminate|].
    case_bool_decide as Hsur; [|discriminate]. cbn [negb] in Hraise.
    apply list_elem_of_fmap in Hsur as (s & Hs & Hin).
    rewrite Hs, (filter_key_singleton surah_id _ 1 s) in Hraise;
      [|apply get_surahs_keys|done].
    simpl in Hraise.
    destruct (end_ >? n_aya s); [discriminate|].
    destruct (start <? 1); [discriminate|].
    destruct (end_ <? start); [discriminate|].
    by apply fetch_ayat_raise in Hraise.
  - intros Hout. apply get_recitations_unknown_reciter. intros r Hr Hid.
    apply Hout, get_reciters_id_range. by exists r.
Qed.

(** X5: with a known reciter, a surah id that is not listed makes the
    resolver raise [FetchError] with the message of line 96, whatever the
    range asked for: the surah is tested before the range. *)
Theorem get_recitations_unknown_surah (json_loads : pystr -> option json) (api : Api)
    (reciter_number surah_number start end_ : Z) (r : Reciter) :
  known_reciter api reciter_number r ->
  ~ (1 <= surah_number <= Z.of_nat (length (references api))) ->
  get_recitations json_loads api reciter_number surah_number start end_ =
  Raise (FetchError (lit "Surah id doesnt exist")).
Proof.
  intros (Hr & Hid & Hcode) Hout.
  rewrite (get_recitations_with_reciter _ _ _ _ _ _ r Hr Hid).
  rewrite bool_decide_false by done.
  rewrite bool_decide_false; [done|].
  intros Hin. by apply Hout, get_surahs_id_range.
Qed.

Lemma get_recitations_unknown_surah_witness :
  get_recitations sample_json_loads sample_api 1 3 0 500 =
  Raise (FetchError (lit "Surah id doesnt exist")).
Proof.
  apply (get_recitations_unknown_surah sample_json_loads sample_api 1 3 0 500 sample_reciter
           sample_reciter_known).
  simpl. lia.
Defined.

(** X6: a reciter id that is listed with an empty code makes the
    resolver raise [FetchError] with the message of line 94, whatever
    the surah and the range: this is the one case the test of line 93
    catches. *)
Theorem get_recitations_empty_code (json_loads : pystr -> option json) (api : Api)
    (reciter_number surah_number start end_ : Z) (r : Reciter) :
  r ∈ get_reciters api -> reciter_id r = reciter_number ->
  reciter_code r = [] ->
  get_recitations json_loads api reciter_number surah_number start end_ =
  Raise (FetchError (lit "Reciter id doesnt exist")).
Proof.
  intros Hr Hid Hcode.
  rewrite (get_recitations_with_reciter _ _ _ _ _ _ r Hr Hid).
  by rewrite bool_decide_true.
Qed.

Lemma get_recitations_empty_code_witness :
  get_recitations sample_json_loads sample_api_blank 1 1 1 1 =
  Raise (FetchError (lit "Reciter id doesnt exist")).
Proof.
  apply (get_recitations_empty_code sample_json_loads sample_api_blank 1 1 1 1
           sample_blank_reciter).
  - apply (list_elem_of_lookup_2 _ 0%nat). reflexivity.
  - reflexivity.
  - reflexivity.
Defined.

Lemma py_range_split (a k b : Z) :
  a <= k < b ->
  py_range a b = py_range a k ++ k :: py_range (k + 1) b.
Proof.
  intros Hk. unfold py_range.
  replace (Z.to_nat (b - a))
    with (Z.to_nat (k - a) + S (Z.to_nat (b - (k + 1))))%nat by lia.
  rewrite seq_app, fmap_app. f_equal. cbn [seq]. rewrite fmap_cons.
  f_equal; [lia|].
  rewrite <- (Nat.add_0_r (S (0 + Z.to_nat (k - a)))), <- fmap_add_seq.
  rewrite <- list_fmap_compose.
  apply list_fmap_ext. intros _ j _. simpl. lia.
Qed.

(** The loop stops at the first verse whose lookup fails, with the
    error of that lookup. *)
Lemma fetch_ayat_first_failure (json_loads : pystr -> option json)
    (api : Api) (reciter : pystr) (remove : bool)
    (good : list Z) (bad : Z) (rest : list Z) (e : exn) :
  (forall aya, aya ∈ good -> fetches json_loads api aya) ->
  fetch_text json_loads api bad = Raise e ->
  forall i acc,
    fetch_ayat json_loads api reciter remove i (good ++ bad :: rest) acc =
    Raise e.
Proof.
  intros Hgood Hbad. induction good as [|aya good IH]; intros i acc.
  - cbn [app fetch_ayat]. by rewrite Hbad.
  - cbn [app fetch_ayat]. rewrite fetch_text_ok by (apply Hgood; left).
    destruct ((i =? 0) && remove); simpl;
      apply IH; intros a Ha; apply Hgood; by right.
Qed.

Lemma fetch_text_status (json_loads : pystr -> option json) (api : Api)
    (aya : Z) :
  status_code (ayah api aya) <> 200 ->
  fetch_text json_loads api aya =
  Raise (FetchError (lit "Error in fetching text of aya number "
                     ++ str_of_int aya)).
Proof.
  intros H. unfold fetch_text.
  by replace (status_code (ayah api aya) =? 200) with false by lia.
Qed.

Lemma fetches_status (json_loads : pystr -> option json) (api : Api)
    (aya : Z) :
  fetches json_loads api aya -> status_code (ayah api aya) = 200.
Proof.
  intros [t Ht]. destruct (decide (status_code (ayah api aya) = 200)) as [|Hne];
    [done|].
  by rewrite fetch_text_status in Ht.
Qed.

(** On a valid request the resolver raises what the first failing
    lookup raises. *)
Lemma get_recitations_first_failure (json_loads : pystr -> option json)
    (api : Api) (reciter_number surah_number start end_ k : Z)
    (r : Reciter) (s : Surah) (e : exn) :
  known_reciter api reciter_number r ->
  known_surah api surah_number s ->
  1 <= start -> start <= k -> k <= end_ -> end_ <= n_aya s ->
  (forall j, start <= j < k ->
     fetches json_loads api (j + aya_base s)) ->
  fetch_text json_loads api (k + aya_base s) = Raise e ->
  get_recitations json_loads api reciter_number surah_number start end_ =
  Raise e.
Proof.
  intros Hr Hs H1 H2 H3 H4 Hgood Hbad.
  rewrite (get_recitations_known _ _ _ _ _ _ r s) by done.
  replace (end_ >? n_aya s) with false by lia.
  replace (start <? 1) with false by lia.
  replace (end_ <? start) with false by lia.
  rewrite required_ayat_closed, (py_range_split start k) by lia.
  rewrite fmap_app, fmap_cons.
  apply fetch_ayat_first_failure; [|done].
  intros a Ha. apply list_elem_of_fmap in Ha as (j & -> & Hj).
  apply py_range_elem in Hj. by apply Hgood.
Qed.

(** X7: on a valid request, when the lookups of the verses before
    verse [k] of the range succeed and the lookup of verse [k] does not
    answer with status 200, the resolver raises [FetchError] naming the
    number of that verse in the whole text; the recitations gathered
    before it are not returned, and what the later verses would answer
    does not matter. *)
Theorem get_recitations_first_fetch_failure
    (json_loads : pystr -> option json) (api : Api)
    (reciter_number surah_number start end_ k : Z) (r : Reciter) (s : Surah) :
  known_reciter api reciter_number r ->
  known_surah api surah_number s ->
  1 <= start -> start <= k -> k <= end_ -> end_ <= n_aya s ->
  (forall j, start <= j < k ->
     fetches json_loads api (j + aya_base s)) ->
  status_code (ayah api (k + aya_base s)) <> 200 ->
  get_recitations json_loads api reciter_number surah_number start end_ =
  Raise (FetchError (lit "Error in fetching text of aya number "
                     ++ str_of_int (k + aya_base s))).
Proof.
  intros Hr Hs H1 H2 H3 H4 Hgood Hbad.
  apply (get_recitations_first_failure _ _ _ _ _ _ k r s); try done.
  by apply fetch_text_status.
Qed.

Lemma get_recitations_first_fetch_failure_witness :
  get_recitations sample_json_loads sample_api_gap 1 2 1 3 =
  Raise (FetchError (lit "Error in fetching text of aya number 9")).
Proof.
  apply (get_recitations_first_fetch_failure sample_json_loads sample_api_gap
           1 2 1 3 2 sample_reciter sample_surah_2
           sample_reciter_known sample_surah_2_known).
  - lia.
  - lia.
  - lia.
  - simpl. lia.
  - intros j Hj. assert (j = 1) as -> by lia. sample_fetch.
  - vm_compute. discriminate.
Defined.

(** X20: a lookup that answers with status 200 can still fail at line
    122: on a valid request, when the lookups before verse [k] succeed
    and the body of verse [k] decodes but is not JSON once its
    apostrophes are turned into double quotes, the resolver raises
    [JSONDecodeError], not [FetchError]. *)
Theorem get_recitations_unparsable_body
    (json_loads : pystr -> option json) (api : Api)
    (reciter_number surah_number start end_ k : Z) (r : Reciter) (s : Surah)
    (body : pystr) :
  known_reciter api reciter_number r ->
  known_surah api surah_number s ->
  1 <= start -> start <= k -> k <= end_ -> end_ <= n_aya s ->
  (forall j, start <= j < k ->
     fetches json_loads api (j + aya_base s)) ->
  status_code (ayah api (k + aya_base s)) = 200 ->
  utf8_decode (content (ayah api (k + aya_base s))) = Some body ->
  json_loads (replace body [39%N] [34%N]) = None ->
  get_recitations json_loads api reciter_number surah_number start end_ =
  Raise JSONDecodeError.
Proof.
  intros Hr Hs H1 H2 H3 H4 Hgood Hst Hbody Hparse.
  apply (get_recitations_first_failure _ _ _ _ _ _ k r s); try done.
  unfold fetch_text, response_text. by rewrite Hst, Hbody, Hparse.
Qed.

Lemma get_recitations_unparsable_body_witness :
  get_recitations sample_json_loads sample_api_apostrophe 1 2 1 3 =
  Raise JSONDecodeError.
Proof.
  apply (get_recitations_unparsable_body sample_json_loads
           sample_api_apostrophe 1 2 1 3 2 sample_reciter sample_surah_2
           (sample_prefix ++ lit "the verse's text" ++ sample_suffix)
           sample_reciter_known sample_surah_2_known).
  - lia.
  - lia.
  - lia.
  - simpl. lia.
  - intros j Hj. assert (j = 1) as -> by lia. sample_fetch.
  - reflexivity.
  - vm_compute. reflexivity.
  - vm_compute. reflexivity.
Defined.

(** ** Verse range resolver: what a result tells *)

Lemma get_surahs_id_inj (api : Api) (s t : Surah) :
  s ∈ get_surahs api -> t ∈ get_surahs api -> surah_id s = surah_id t -> s = t.
Proof.
  intros Hs Ht Hid.
  apply list_elem_of_lookup in Hs as [i Hi].
  apply list_elem_of_lookup in Ht as [j Hj].
  pose proof (get_surahs_keys _ _ _ Hi). pose proof (get_surahs_keys _ _ _ Hj).
  assert (i = j) as -> by lia. rewrite Hi in Hj. by injection Hj.
Qed.

Lemma fetch_ayat_ok_all (json_loads : pystr -> option json) (api : Api) (reciter : pystr) (remove : bool)
    (ayat : list Z) :
  forall i acc recs,
    fetch_ayat json_loads api reciter remove i ayat acc = Ok recs ->
    forall aya, aya ∈ ayat -> fetches json_loads api aya.
Proof.
  induction ayat as [|a ayat IH]; intros i acc recs H aya Haya.
  - by apply elem_of_nil in Haya.
  - cbn [fetch_ayat] in H.
    destruct (fetch_text json_loads api a) as [v|e] eqn:Hv; [|discriminate].
    simpl in H.
    assert (exists t, v = JStr t) as [t ->].
    { destruct ((i =? 0) && remove); destruct v; simpl in H;
        try discriminate; by eexists. }
    apply elem_of_cons in Haya as [->|Haya]; [by exists t|].
    destruct ((i =? 0) && remove); simpl in H; by eapply IH.
Qed.

(** A result comes from a valid request only. *)
Lemma get_recitations_ok_inv (json_loads : pystr -> option json) (api : Api)
    (reciter_number surah_number start end_ : Z) (recs : list Recitation) :
  get_recitations json_loads api reciter_number surah_number start end_ = Ok recs ->
  exists r s,
    known_reciter api reciter_number r /\
    known_surah api surah_number s /\
    1 <= start /\ start <= end_ /\ end_ <= n_aya s /\
    (forall k, start <= k <= end_ ->
       fetches json_loads api (k + aya_base s)).
Proof.
  intros Hok.
  destruct (decide (1 <= reciter_number
                    <= Z.of_nat (length (get_reciters api)))) as [Hin|Hout].
  - apply get_reciters_id_range in Hin as (r & Hr & Hid).
    pose proof Hok as Hok'.
    rewrite (get_recitations_with_reciter _ _ _ _ _ _ r Hr Hid) in Hok'.
    case_bool_decide as Hcode; [discriminate|].
    case_bool_decide as Hsur; [|discriminate]. cbn [negb] in Hok'.
    apply list_elem_of_fmap in Hsur as (s & Hs & Hin).
    rewrite Hs, (filter_key_singleton surah_id _ 1 s) in Hok';
      [|apply get_surahs_keys|done].
    simpl in Hok'.
    destruct (end_ >? n_aya s) eqn:E1; [discriminate|].
    destruct (start <? 1) eqn:E2; [discriminate|].
    destruct (end_ <? start) eqn:E3; [discriminate|].
    exists r, s. split_and!; try done; try lia.
    intros k Hk. eapply fetch_ayat_ok_all; [exact Hok'|].
    rewrite required_ayat_closed. apply list_elem_of_fmap.
    exists k. split; [done|]. unfold py_range. apply list_elem_of_fmap.
    exists (Z.to_nat (k - start)). split; [lia|]. apply elem_of_seq. lia.
  - rewrite get_recitations_unknown_reciter in Hok; [discriminate|].
    intros r Hr Hid. apply Hout, get_reciters_id_range. by exists r.
Qed.

Lemma get_recitations_result_length (json_loads : pystr -> option json)
    (api : Api) (reciter_number surah_number start end_ : Z)
    (recs : list Recitation) :
  get_recitations json_loads api reciter_number surah_number start end_
    = Ok recs ->
  length recs = Z.to_nat (end_ - start + 1) /\ start <= end_.
Proof.
  intros Hok.
  destruct (get_recitations_ok_inv _ _ _ _ _ _ _ Hok)
    as (r & s & Hr & Hs & H1 & H2 & H3 & Hst).
  rewrite (get_recitations_valid _ _ _ _ _ _ r s) in Hok by done.
  injection Hok as <-. simpl. rewrite !length_fmap. unfold py_range.
  rewrite length_fmap, length_seq. lia.
Qed.

(** X8: the resolver returns a result for valid requests only: if it
    returns, the reciter and the surah are listed, the range satisfies
    [1 <= start <= end <= n_aya], every verse of the range answered with
    status 200 and a body that held its text, and the result has
    [end - start + 1] recitations, so it is never empty. *)
Theorem get_recitations_result_sound (json_loads : pystr -> option json)
    (api : Api) (reciter_number surah_number start end_ : Z)
    (recs : list Recitation) :
  get_recitations json_loads api reciter_number surah_number start end_
    = Ok recs ->
  exists r s,
    known_reciter api reciter_number r /\
    known_surah api surah_number s /\
    1 <= start /\ start <= end_ /\ end_ <= n_aya s /\
    (forall k, start <= k <= end_ ->
       status_code (ayah api (k + aya_base s)) = 200 /\
       fetches json_loads api (k + aya_base s)) /\
    length recs = Z.to_nat (end_ - start + 1) /\
    recs <> [].
Proof.
  intros Hok.
  destruct (get_recitations_ok_inv _ _ _ _ _ _ _ Hok)
    as (r & s & Hr & Hs & H1 & H2 & H3 & Hst).
  exists r, s. split_and!; try done.
  - intros k Hk. split; [|by apply Hst]. by eapply fetches_status, Hst.
  - rewrite (get_recitations_valid _ _ _ _ _ _ r s) in Hok by done.
    injection Hok as <-. simpl. rewrite !length_fmap. unfold py_range.
    rewrite length_fmap, length_seq. lia.
  - rewrite (get_recitations_valid _ _ _ _ _ _ r s) in Hok by done.
    injection Hok as <-. done.
Qed.

Lemma get_recitations_result_sound_witness :
  exists r s,
    known_reciter sample_api 1 r /\
    known_surah sample_api 2 s /\
    1 <= 1 /\ 1 <= 2 /\ 2 <= n_aya s /\
    (forall k, 1 <= k <= 2 ->
       status_code (ayah sample_api (k + aya_base s)) = 200 /\
       fetches sample_json_loads sample_api (k + aya_base s)) /\
    length [recitation_at sample_json_loads sample_api (lit "ar.alafasy")
                          true true 8;
            recitation_at sample_json_loads sample_api (lit "ar.alafasy")
                          true false 9]
      = Z.to_nat (2 - 1 + 1) /\
    [recitation_at sample_json_loads sample_api (lit "ar.alafasy") true true 8;
     recitation_at sample_json_loads sample_api (lit "ar.alafasy") true false 9]
      <> [].
Proof.
  apply (get_recitations_result_sound sample_json_loads sample_api 1 2 1 2).
  vm_compute. reflexivity.
Defined.

Lemma remove_bismillah_eq (s : Surah) (start : Z) :
  remove_bismillah s start = (start =? 1).
Proof. unfold remove_bismillah. simpl. by destruct (start =? 1). Qed.

Lemma lookup_py_range (a b : Z) (i : nat) (n : Z) :
  py_range a b !! i = Some n -> n = a + Z.of_nat i.
Proof.
  unfold py_range. rewrite list_lookup_fmap. intros H.
  destruct (seq 0 (Z.to_nat (b - a)) !! i) as [k|] eqn:Hk; [|done].
  apply lookup_seq in Hk as [-> _]. simpl in H. by injection H as <-.
Qed.

(** X9: in a result, the text at position [i] is the trimmed text the
    API gave for verse [start + i], untouched otherwise, whenever [i] is
    not 0, or [start] is not 1, or the text does not contain the
    Bismillah: the removal only ever changes the first recitation of a
    range that starts at verse 1. *)
Theorem get_recitations_removal_scope (json_loads : pystr -> option json) (api : Api)
    (reciter_number surah_number start end_ : Z) (recs : list Recitation)
    (s : Surah) (i : nat) (rec : Recitation) :
  get_recitations json_loads api reciter_number surah_number start end_ = Ok recs ->
  known_surah api surah_number s ->
  recs !! i = Some rec ->
  i <> 0%nat \/ start <> 1 \/
    py_in BISMILLAH
          (fetched json_loads api (start + Z.of_nat i + aya_base s)) = false ->
  fetch_text json_loads api (start + Z.of_nat i + aya_base s) =
    Ok (JStr (fetched json_loads api (start + Z.of_nat i + aya_base s))) /\
  text rec =
  strip (fetched json_loads api (start + Z.of_nat i + aya_base s)).
Proof.
  intros Hok [Hs Hid] Hrec Hcase.
  pose proof (lookup_lt_Some _ _ _ Hrec) as Hlt.
  destruct (get_recitations_result_length _ _ _ _ _ _ _ Hok) as [Hlen _].
  split.
  { destruct (get_recitations_ok_inv _ _ _ _ _ _ _ Hok)
      as (r & s' & Hr & [Hs' Hid'] & H1 & H2 & H3 & Hst).
    assert (s' = s) as -> by (apply (get_surahs_id_inj api); congruence).
    apply fetch_text_ok, Hst. lia. }
  destruct (get_recitations_ok_inv _ _ _ _ _ _ _ Hok)
    as (r & s' & Hr & [Hs' Hid'] & H1 & H2 & H3 & Hst).
  assert (s' = s) as -> by (apply (get_surahs_id_inj api); congruence).
  rewrite (get_recitations_valid _ _ _ _ _ _ r s) in Hok by done.
  injection Hok as <-.
  destruct i as [|i].
  - simpl in Hrec. injection Hrec as <-. rewrite Z.add_0_r in *.
    unfold recitation_at. cbn [text andb]. rewrite remove_bismillah_eq.
    destruct Hcase as [Hcase|[Hcase|Hcase]]; [done| |].
    + by replace (start =? 1) with false by lia.
    + destruct (start =? 1); [|done].
      rewrite replace_nonempty by done. by rewrite replace_scan_free.
  - simpl in Hrec. rewrite !list_lookup_fmap in Hrec.
    destruct (py_range (start + 1) (end_ + 1) !! i) as [n|] eqn:Hn; [|done].
    apply lookup_py_range in Hn as ->. simpl in Hrec. injection Hrec as <-.
    unfold recitation_at. cbn [text andb]. do 3 f_equal. lia.
Qed.

Lemma get_recitations_removal_scope_witness :
  fetch_text sample_json_loads sample_api
             (1 + Z.of_nat 1 + aya_base sample_surah_2) =
    Ok (JStr (fetched sample_json_loads sample_api
                      (1 + Z.of_nat 1 + aya_base sample_surah_2))) /\
  text (recitation_at sample_json_loads sample_api (lit "ar.alafasy")
                      true false 9) =
  strip (fetched sample_json_loads sample_api
                 (1 + Z.of_nat 1 + aya_base sample_surah_2)).
Proof.
  apply (get_recitations_removal_scope sample_json_loads sample_api 1 2 1 2
           [recitation_at sample_json_loads sample_api (lit "ar.alafasy")
                          true true 8;
            recitation_at sample_json_loads sample_api (lit "ar.alafasy")
                          true false 9]
           sample_surah_2 1).
  - vm_compute. reflexivity.
  - apply sample_surah_2_known.
  - reflexivity.
  - left. discriminate.
Defined.

Lemma lstrip_head (s : pystr) (c : char) :
  head (lstrip s) = Some c -> is_space c = false.
Proof.
  induction s as [|a s IH]; simpl; [done|].
  destruct (is_space a) eqn:Ha; [done|]. simpl. by intros [= <-].
Qed.

Lemma lstrip_keeps_last (s : pystr) (c : char) :
  is_space c = false -> exists p, lstrip (s ++ [c]) = p ++ [c].
Proof.
  intros Hc. induction s as [|a s IH]; simpl.
  - rewrite Hc. by exists [].
  - destruct (is_space a); [done|]. by exists (a :: s).
Qed.

(** What [strip] leaves neither starts nor ends with white space. *)
Lemma strip_ends (s : pystr) :
  (forall c, head (strip s) = Some c -> is_space c = false) /\
  (forall c, last (strip s) = Some c -> is_space c = false).
Proof.
  unfold strip, rstrip. split; intros c Hc.
  - destruct (lstrip s) as [|a u] eqn:Hu; [done|].
    assert (is_space a = false) as Ha by (apply (lstrip_head s); by rewrite Hu).
    simpl in Hc. destruct (lstrip_keeps_last (rev u) a Ha) as [p Hp].
    rewrite Hp, rev_app_distr in Hc. simpl in Hc. by injection Hc as <-.
  - apply (lstrip_head (rev (lstrip s))).
    rewrite <- (rev_involutive (lstrip (rev (lstrip s)))).
    destruct (rev (lstrip (rev (lstrip s)))) as [|x l] using rev_ind;
      [done|].
    rewrite last_snoc in Hc. injection Hc as ->.
    by rewrite rev_app_distr.
Qed.

(** X10: every text the resolver returns is trimmed: it neither starts
    nor ends with a white-space character. *)
Theorem get_recitations_texts_trimmed (json_loads : pystr -> option json) (api : Api)
    (reciter_number surah_number start end_ : Z) (recs : list Recitation)
    (rec : Recitation) :
  get_recitations json_loads api reciter_number surah_number start end_ = Ok recs ->
  rec ∈ recs ->
  (forall c, head (text rec) = Some c -> is_space c = false) /\
  (forall c, last (text rec) = Some c -> is_space c = false).
Proof.
  intros Hok Hrec.
  destruct (get_recitations_ok_inv _ _ _ _ _ _ _ Hok)
    as (r & s & Hr & Hs & H1 & H2 & H3 & Hst).
  rewrite (get_recitations_valid _ _ _ _ _ _ r s) in Hok by done.
  injection Hok as <-.
  apply elem_of_cons in Hrec as [->|Hrec]; [apply strip_ends|].
  apply list_elem_of_fmap in Hrec as (aya & -> & _). apply strip_ends.
Qed.

Lemma get_recitations_texts_trimmed_witness :
  (forall c, head (text (recitation_at sample_json_loads sample_api
                                       (lit "ar.alafasy") true true 8))
             = Some c -> is_space c = false) /\
  (forall c, last (text (recitation_at sample_json_loads sample_api
                                       (lit "ar.alafasy") true true 8))
             = Some c -> is_space c = false).
Proof.
  apply (get_recitations_texts_trimmed sample_json_loads sample_api 1 2 1 2
           [recitation_at sample_json_loads sample_api (lit "ar.alafasy")
                          true true 8;
            recitation_at sample_json_loads sample_api (lit "ar.alafasy")
                          true false 9]).
  - vm_compute. reflexivity.
  - left.
Defined.

(** ** Names that never collide *)

Lemma lit_inj (s t : string) : lit s = lit t -> s = t.
Proof.
  unfold lit. intros H.
  rewrite <- (string_of_list_ascii_of_string s),
          <- (string_of_list_ascii_of_string t).
  f_equal. revert H.
  generalize (list_ascii_of_string s) (list_ascii_of_string t).
  intros l. induction l as [|a l IH]; intros [|b l']; simpl; try done.
  intros [= Hab Hl]. f_equal; [|by apply IH].
  by rewrite <- (ascii_N_embedding a), <- (ascii_N_embedding b), Hab.
Qed.

Lemma to_int_nonnil (n : Z) :
  Z.to_int n <> Decimal.Pos Decimal.Nil /\ Z.to_int n <> Decimal.Neg Decimal.Nil.
Proof.
  destruct n as [|p|p]; simpl; split; try discriminate;
    intros [= H]; by apply (DecimalPos.Unsigned.to_uint_nonnil p).
Qed.

(** [str] of two different integers gives two different strings. *)
Lemma str_of_int_inj (a b : Z) : str_of_int a = str_of_int b -> a = b.
Proof.
  unfold str_of_int. intros H. apply lit_inj in H.
  apply DecimalZ.to_int_inj.
  assert (Some (Z.to_int a) = Some (Z.to_int b)) as [= ->]; [|done].
  destruct (to_int_nonnil a), (to_int_nonnil b).
  rewrite <- (NilZero.isi (Z.to_int a)), <- (NilZero.isi (Z.to_int b)) by done.
  by rewrite H.
Qed.

Lemma audio_link_of_inj (reciter : pystr) (a b : Z) :
  audio_link_of reciter a = audio_link_of reciter b -> a = b.
Proof.
  unfold audio_link_of. intros H.
  do 3 apply app_inv_head in H. apply app_inv_tail in H.
  by apply str_of_int_inj.
Qed.

Lemma recitation_path_inj (destination : pystr) (i j : Z) :
  recitation_path destination i = recitation_path destination j -> i = j.
Proof.
  rewrite !recitation_path_form. intros H. apply str_of_int_inj.
  destruct (bool_decide (destination = [])
            || bool_decide (last destination = Some 47%N)).
  - do 2 apply app_inv_head in H. by apply app_inv_tail in H.
  - do 3 apply app_inv_head in H. by apply app_inv_tail in H.
Qed.

Lemma py_range_NoDup (a b : Z) : NoDup (py_range a b).
Proof.
  unfold py_range. apply NoDup_fmap_2; [|apply NoDup_seq].
  intros i j Hij. lia.
Qed.

(** X11: the audio links of a result are pairwise different: two
    recitations of one result never point at the same clip. *)
Theorem get_recitations_links_distinct (json_loads : pystr -> option json) (api : Api)
    (reciter_number surah_number start end_ : Z) (recs : list Recitation) :
  get_recitations json_loads api reciter_number surah_number start end_ = Ok recs ->
  NoDup (audio_link <$> recs).
Proof.
  intros Hok.
  destruct (get_recitations_ok_inv _ _ _ _ _ _ _ Hok)
    as (r & s & Hr & Hs & H1 & H2 & H3 & Hst).
  rewrite (get_recitations_valid _ _ _ _ _ _ r s) in Hok by done.
  injection Hok as <-.
  assert (audio_link <$>
            (recitation_at json_loads api (reciter_code r) (remove_bismillah s start) true
                           (start + aya_base s)
             :: (recitation_at json_loads api (reciter_code r) (remove_bismillah s start)
                               false
                   <$> ((λ n, n + aya_base s)
                          <$> py_range (start + 1) (end_ + 1))))
          = (λ n, audio_link_of (reciter_code r) (n + aya_base s))
              <$> py_range start (end_ + 1)) as ->.
  { rewrite (py_range_cons start) by lia. rewrite !fmap_cons. f_equal.
    by rewrite <- !list_fmap_compose. }
  apply NoDup_fmap_2; [|apply py_range_NoDup].
  intros a b Hab. apply audio_link_of_inj in Hab. lia.
Qed.

Lemma get_recitations_links_distinct_witness :
  NoDup (audio_link <$>
           [recitation_at sample_json_loads sample_api (lit "ar.alafasy") true true 8;
            recitation_at sample_json_loads sample_api (lit "ar.alafasy") true false 9]).
Proof.
  apply (get_recitations_links_distinct sample_json_loads sample_api 1 2 1 2).
  vm_compute. reflexivity.
Defined.

(** ** Batch downloader: success and failure *)

Section DownloaderMore.

Context {world : Type}.
Variable os_path_exists : world -> pystr -> bool.
Variable os_mkdir : world -> pystr -> result world.
Variable download_file : world -> pystr -> pystr -> bool * world.

Lemma download_loop_ok_inv (destination : pystr) (recitations : list pystr) :
  forall w i acc audios,
    fst (download_loop world download_file destination w i recitations acc)
      = Ok audios ->
    downloads_succeed world download_file destination w i recitations.
Proof.
  induction recitations as [|link rest IH]; intros w i acc audios H; [done|].
  cbn [download_loop] in H. cbn [downloads_succeed].
  destruct (download_file w link (recitation_path destination i))
    as [succsess w'] eqn:Hdl.
  destruct succsess; [|discriminate]. cbn [negb] in H. simpl.
  split; [done|]. by eapply IH.
Qed.

(** The world the loop leaves does not depend on the names gathered. *)
Lemma download_loop_world (destination : pystr) (recitations : list pystr) :
  forall w i acc acc',
    snd (download_loop world download_file destination w i recitations acc) =
    snd (download_loop world download_file destination w i recitations acc').
Proof.
  induction recitations as [|link rest IH]; intros w i acc acc'; [done|].
  cbn [download_loop].
  destruct (download_file w link (recitation_path destination i))
    as [succsess w'].
  destruct succsess; [|done]. cbn [negb]. apply IH.
Qed.

(** After the links that succeed, the loop goes on with the rest from
    the world they left. *)
Lemma download_loop_app (destination : pystr) (pre rest : list pystr) :
  forall w i acc,
    downloads_succeed world download_file destination w i pre ->
    download_loop world download_file destination w i (pre ++ rest) acc =
    download_loop world download_file destination
      (snd (download_loop world download_file destination w i pre []))
      (i + Z.of_nat (length pre)) rest
      (acc ++ ((λ k : nat, recitation_path destination (i + Z.of_nat k))
                 <$> seq 0 (length pre))).
Proof.
  induction pre as [|link pre IH]; intros w i acc Hok.
  - simpl. by rewrite Z.add_0_r, app_nil_r.
  - cbn [downloads_succeed] in Hok. destruct Hok as [Hfst Hrest].
    cbn [app download_loop].
    destruct (download_file w link (recitation_path destination i))
      as [succsess w'] eqn:Hdl.
    simpl in Hfst, Hrest. subst succsess. cbn [negb].
    rewrite IH by done.
    rewrite (download_loop_world destination pre w' (i + 1)
               [recitation_path destination i] []).
    cbn [length seq fmap list_fmap]. rewrite <- app_assoc. cbn [app].
    rewrite Z.add_0_r.
    f_equal; [lia|]. do 2 f_equal.
    rewrite <- seq_shift, <- list_fmap_compose.
    apply list_fmap_ext. intros _ k _. simpl. f_equal. lia.
Qed.

End DownloaderMore.

(** X12: when [download_recitations] returns, it returns one file name
    per link and no name twice: no clip of the batch is written over
    another. *)
Theorem download_recitations_names_distinct (world : Type)
    (os_path_exists : world -> pystr -> bool)
    (os_mkdir : world -> pystr -> result world)
    (download_file : world -> pystr -> pystr -> bool * world)
    (w : world) (recitations : list pystr) (destination : pystr)
    (audios : list pystr) :
  fst (download_recitations world os_path_exists os_mkdir download_file
         w recitations destination) = Ok audios ->
  length audios = length recitations /\ NoDup audios.
Proof.
  unfold download_recitations. intros H.
  destruct (ensure_destination world os_path_exists os_mkdir w destination)
    as [w1|e]; [|discriminate].
  pose proof (download_loop_ok_inv download_file _ _ _ _ _ _ H) as Hok.
  rewrite download_loop_ok in H by done. injection H as <-. simpl. split.
  - by rewrite length_fmap, length_seq.
  - apply NoDup_fmap_2; [|apply NoDup_seq].
    intros i j Hij. apply recitation_path_inj in Hij. lia.
Qed.

Lemma download_recitations_names_distinct_witness :
  length [lit "out/recitation_0.mp3"; lit "out/recitation_1.mp3"] =
    length [lit "https://a/8.mp3"; lit "https://a/9.mp3"] /\
  NoDup [lit "out/recitation_0.mp3"; lit "out/recitation_1.mp3"].
Proof.
  apply (download_recitations_names_distinct (list (pystr * pystr))
           (fun _ _ => true) (fun w _ => Ok w) sample_download_file
           [] [lit "https://a/8.mp3"; lit "https://a/9.mp3"] (lit "out")).
  reflexivity.
Defined.

(** X13: when the destination is there or made, the links before some
    link all download and that link does not, [download_recitations]
    exits; the world is left as the failed download left it, and the
    links after it are never asked for. *)
Theorem download_recitations_first_failure (world : Type)
    (os_path_exists : world -> pystr -> bool)
    (os_mkdir : world -> pystr -> result world)
    (download_file : world -> pystr -> pystr -> bool * world)
    (w w1 : world) (pre : list pystr) (bad : pystr) (post : list pystr)
    (destination : pystr) :
  ensure_destination world os_path_exists os_mkdir w destination = Ok w1 ->
  downloads_succeed world download_file destination w1 0 pre ->
  fst (download_file
         (snd (download_loop world download_file destination w1 0 pre []))
         bad (recitation_path destination (Z.of_nat (length pre)))) = false ->
  download_recitations world os_path_exists os_mkdir download_file
    w (pre ++ bad :: post) destination =
  (Raise SystemExit,
   snd (download_file
          (snd (download_loop world download_file destination w1 0 pre []))
          bad (recitation_path destination (Z.of_nat (length pre))))).
Proof.
  intros Hdir Hpre Hbad. unfold download_recitations. rewrite Hdir.
  rewrite download_loop_app by done. cbn [download_loop].
  rewrite Z.add_0_l.
  destruct (download_file _ bad _) as [succsess w'].
  simpl in Hbad. by subst succsess.
Qed.

Lemma download_recitations_first_failure_witness :
  download_recitations (list (pystr * pystr))
    (fun _ _ => true) (fun w _ => Ok w) sample_flaky_download
    [] ([lit "https://a/8.mp3"] ++ lit "https://a/bad.mp3"
        :: [lit "https://a/10.mp3"]) (lit "out") =
  (Raise SystemExit,
   [(lit "https://a/8.mp3", lit "out/recitation_0.mp3");
    (lit "https://a/bad.mp3", lit "out/recitation_1.mp3")]).
Proof.
  apply (download_recitations_first_failure (list (pystr * pystr))
           (fun _ _ => true) (fun w _ => Ok w) sample_flaky_download
           [] [] [lit "https://a/8.mp3"] (lit "https://a/bad.mp3")
           [lit "https://a/10.mp3"] (lit "out")).
  - reflexivity.
  - simpl. auto.
  - reflexivity.
Defined.

(** ** Duration extractor *)

Lemma durations_loop_closed (os_path_exists : pystr -> bool)
    (audio_length : pystr -> Z) (audio_file_names : list pystr) :
  forall durations,
    durations_loop os_path_exists audio_length audio_file_names durations =
    if forallb os_path_exists audio_file_names
    then Ok (durations ++
             ((λ f, (float_of_int (audio_length f) / 1000)%float)
                <$> audio_file_names))
    else Raise SystemExit.
Proof.
  induction audio_file_names as [|f rest IH]; intros durations.
  - simpl. by rewrite app_nil_r.
  - cbn [durations_loop forallb]. destruct (os_path_exists f); [|done].
    rewrite IH. cbn [andb]. destruct (forallb os_path_exists rest); [|done].
    by rewrite <- app_assoc.
Qed.

(** X14: [recitations_durations] returns the lengths of the clips in
    seconds, one per file name and in the order given, when every file
    exists; as soon as one is missing, wherever it stands in the list,
    it exits and returns no duration at all. *)
Theorem recitations_durations_closed_form (os_path_exists : pystr -> bool)
    (audio_length : pystr -> Z) (audio_file_names : list pystr) :
  recitations_durations os_path_exists audio_length audio_file_names =
  if forallb os_path_exists audio_file_names
  then Ok ((λ f, (float_of_int (audio_length f) / 1000)%float)
             <$> audio_file_names)
  else Raise SystemExit.
Proof. unfold recitations_durations. by rewrite durations_loop_closed. Qed.

Lemma recitations_durations_length (os_path_exists : pystr -> bool)
    (audio_length : pystr -> Z) (audio_file_names : list pystr)
    (durations : list float) :
  recitations_durations os_path_exists audio_length audio_file_names
    = Ok durations ->
  length durations = length audio_file_names.
Proof.
  unfold recitations_durations. rewrite durations_loop_closed.
  destruct (forallb _ _); [|discriminate].
  intros [= <-]. simpl. by rewrite length_fmap.
Qed.

(** ** Caption writer: outcomes and the files it touches *)

Section CaptionMore.

Variable float_repr : float -> pystr.
Variable openable : pystr -> bool.

Lemma caption_end_next (durations : list float) (i : nat) :
  (i < length durations)%nat ->
  caption_end durations i = caption_start durations (S i).
Proof.
  intros Hi. destruct (lookup_lt_is_Some_2 durations i Hi) as [d Hd].
  unfold caption_end. rewrite Hd. symmetry. by apply caption_start_S.
Qed.

Lemma generate_ayat_caption_file_ok (fs : filesystem)
    (ayat_texts : list pystr) (ayat_durations : list float)
    (destination : pystr) :
  length ayat_texts = length ayat_durations ->
  openable destination = true ->
  generate_ayat_caption_file float_repr openable fs ayat_texts ayat_durations
                             destination =
  (Ok tt,
   <[destination :=
       concat (caption_lines float_repr ayat_texts ayat_durations)]> fs).
Proof.
  intros Hlen Hopen. unfold generate_ayat_caption_file, open_w.
  rewrite Hlen, Nat.eqb_refl, Hopen. cbn [negb].
  exact (caption_loop_from float_repr ayat_texts ayat_durations destination fs
           (length ayat_durations) 0 [] Hlen eq_refl).
Qed.

Lemma caption_loop_other (ayat_texts : list pystr)
    (ayat_durations : list float) (destination path : pystr)
    (indices : list nat) :
  path <> destination ->
  forall fs c,
    snd (caption_loop float_repr ayat_texts ayat_durations destination
                      indices fs c) !! path = fs !! path.
Proof.
  intros Hne. induction indices as [|i rest IH]; intros fs c; [done|].
  cbn [caption_loop].
  destruct (ayat_durations !! i) as [d|]; [|done].
  destruct (ayat_texts !! i) as [t|]; [|done].
  rewrite IH. unfold file_write. by rewrite lookup_alter_ne.
Qed.

End CaptionMore.

(** X15: whatever its arguments, the caption writer ends in one of three
    ways: the size-mismatch error when the lengths differ, the error of
    [open] when they agree and the destination cannot be opened, both
    with every file as it was; or a normal return with the destination
    holding the caption lines. It never raises [IndexError]. *)
Theorem generate_ayat_caption_file_outcomes (float_repr : float -> pystr)
    (openable : pystr -> bool) (fs : filesystem)
    (ayat_texts : list pystr) (ayat_durations : list float)
    (destination : pystr) :
  generate_ayat_caption_file float_repr openable fs ayat_texts ayat_durations
                             destination =
  if negb (length ayat_durations =? length ayat_texts)%nat
  then (Raise size_mismatch, fs)
  else if openable destination
  then (Ok tt,
        <[destination :=
            concat (caption_lines float_repr ayat_texts ayat_durations)]> fs)
  else (Raise OSError, fs).
Proof.
  destruct (Nat.eqb_spec (length ayat_durations) (length ayat_texts)) as [E|E];
    cbn [negb].
  - destruct (openable destination) eqn:Hopen.
    + by apply generate_ayat_caption_file_ok.
    + unfold generate_ayat_caption_file, open_w.
      by rewrite E, Nat.eqb_refl, Hopen.
  - unfold generate_ayat_caption_file.
    by replace (length ayat_durations =? length ayat_texts)%nat with false
      by (symmetry; by apply Nat.eqb_neq).
Qed.

(** X16: the caption writer changes no file but its destination,
    whether it succeeds or fails. *)
Theorem generate_ayat_caption_file_other_files (float_repr : float -> pystr)
    (openable : pystr -> bool) (fs : filesystem)
    (ayat_texts : list pystr) (ayat_durations : list float)
    (destination path : pystr) :
  path <> destination ->
  snd (generate_ayat_caption_file float_repr openable fs ayat_texts
         ayat_durations destination) !! path = fs !! path.
Proof.
  intros Hne. unfold generate_ayat_caption_file, open_w.
  destruct (negb _); [done|].
  destruct (openable destination); [|done].
  rewrite caption_loop_other by done. by rewrite lookup_insert_ne.
Qed.

Lemma generate_ayat_caption_file_other_files_witness :
  snd (generate_ayat_caption_file sample_float_repr (fun _ => true)
         (<[lit "notes.txt" := lit "keep"]> ∅)
         [lit "a"; lit "b"] [3; 4.5]%float (lit "captions.txt"))
    !! lit "notes.txt"
  = (<[lit "notes.txt" := lit "keep"]> ∅ : filesystem) !! lit "notes.txt".
Proof.
  apply (generate_ayat_caption_file_other_files sample_float_repr
           (fun _ => true)).
  discriminate.
Defined.

(** X17: a successful call overwrites: the file system it leaves is the
    same whatever the destination held before. *)
Theorem generate_ayat_caption_file_overwrites (float_repr : float -> pystr)
    (openable : pystr -> bool) (fs : filesystem)
    (ayat_texts : list pystr) (ayat_durations : list float)
    (destination old : pystr) :
  length ayat_texts = length ayat_durations ->
  openable destination = true ->
  generate_ayat_caption_file float_repr openable
    (<[destination := old]> fs) ayat_texts ayat_durations destination =
  generate_ayat_caption_file float_repr openable
    (delete destination fs) ayat_texts ayat_durations destination.
Proof.
  intros Hlen Hopen. rewrite !generate_ayat_caption_file_ok by done.
  f_equal. by rewrite insert_insert_eq, insert_delete_eq.
Qed.

Lemma generate_ayat_caption_file_overwrites_witness :
  generate_ayat_caption_file sample_float_repr (fun _ => true)
    (<[lit "captions.txt" := lit "old contents"]> ∅)
    [lit "a"; lit "b"] [3; 4.5]%float (lit "captions.txt") =
  generate_ayat_caption_file sample_float_repr (fun _ => true)
    (delete (lit "captions.txt") ∅)
    [lit "a"; lit "b"] [3; 4.5]%float (lit "captions.txt").
Proof.
  apply (generate_ayat_caption_file_overwrites sample_float_repr
           (fun _ => true)); reflexivity.
Defined.

(** X18: in the file written, every entry but the last ends at the very
    time the next one starts, and the first starts at 0: the captions
    cover the recording without a gap and without an overlap. *)
Theorem generate_ayat_caption_file_contiguous (float_repr : float -> pystr)
    (openable : pystr -> bool) (fs : filesystem)
    (ayat_texts : list pystr) (ayat_durations : list float)
    (destination : pystr) :
  length ayat_texts = length ayat_durations ->
  openable destination = true ->
  generate_ayat_caption_file float_repr openable fs ayat_texts ayat_durations
                             destination =
    (Ok tt,
     <[destination :=
         concat (imap (fun i t =>
                         caption_line float_repr
                           (caption_start ayat_durations i)
                           (caption_start ayat_durations (S i)) t)
                      ayat_texts)]> fs) /\
  caption_start ayat_durations 0 = PyInt 0.
Proof.
  intros Hlen Hopen. split; [|done].
  rewrite generate_ayat_caption_file_ok by done. do 3 f_equal.
  unfold caption_lines. apply imap_ext. intros i t Ht.
  rewrite caption_end_next; [done|].
  apply lookup_lt_Some in Ht. lia.
Qed.

Lemma generate_ayat_caption_file_contiguous_witness :
  generate_ayat_caption_file sample_float_repr (fun _ => true) ∅
    [lit "a"; lit "b"] [3; 4.5]%float (lit "captions.txt") =
    (Ok tt,
     <[lit "captions.txt" :=
         concat (imap (fun i t =>
                         caption_line sample_float_repr
                           (caption_start [3; 4.5]%float i)
                           (caption_start [3; 4.5]%float (S i)) t)
                      [lit "a"; lit "b"])]> ∅) /\
  caption_start [3; 4.5]%float 0 = PyInt 0.
Proof.
  apply (generate_ayat_caption_file_contiguous sample_float_repr
           (fun _ => true)); reflexivity.
Defined.

(** ** From a request to the caption file *)

Lemma download_recitations_ok_length (world : Type)
    (os_path_exists : world -> pystr -> bool)
    (os_mkdir : world -> pystr -> result world)
    (download_file : world -> pystr -> pystr -> bool * world)
    (w : world) (recitations : list pystr) (destination : pystr)
    (audios : list pystr) :
  fst (download_recitations world os_path_exists os_mkdir download_file
         w recitations destination) = Ok audios ->
  length audios = length recitations.
Proof.
  unfold download_recitations. intros H.
  destruct (ensure_destination world os_path_exists os_mkdir w destination)
    as [w1|e]; [|discriminate].
  pose proof (download_loop_ok_inv download_file _ _ _ _ _ _ H) as Hok.
  rewrite download_loop_ok in H by done. injection H as <-. simpl.
  by rewrite length_fmap, length_seq.
Qed.

(** X19: the stages fit together: when a request is resolved, the links
    of its recitations are downloaded and the durations of the files
    downloaded are measured, the caption writer given the texts of the
    recitations and these durations passes its size test; if the
    destination can be opened it returns normally, with one caption line
    for each of the [end - start + 1] verses asked for. *)
Theorem resolve_download_measure_caption (world : Type)
    (world_path_exists : world -> pystr -> bool)
    (os_mkdir : world -> pystr -> result world)
    (download_file : world -> pystr -> pystr -> bool * world)
    (os_path_exists : pystr -> bool) (audio_length : pystr -> Z)
    (float_repr : float -> pystr) (openable : pystr -> bool)
    (json_loads : pystr -> option json) (api : Api) (reciter_number surah_number start end_ : Z)
    (w : world) (fs : filesystem) (directory destination : pystr)
    (recs : list Recitation) (audios : list pystr) (durations : list float) :
  get_recitations json_loads api reciter_number surah_number start end_ = Ok recs ->
  fst (download_recitations world world_path_exists os_mkdir download_file
         w (audio_link <$> recs) directory) = Ok audios ->
  recitations_durations os_path_exists audio_length audios = Ok durations ->
  openable destination = true ->
  generate_ayat_caption_file float_repr openable fs (text <$> recs) durations
                             destination =
    (Ok tt,
     <[destination :=
         concat (caption_lines float_repr (text <$> recs) durations)]> fs) /\
  length (caption_lines float_repr (text <$> recs) durations) =
    Z.to_nat (end_ - start + 1).
Proof.
  intros Hres Hdl Hdur Hopen.
  apply download_recitations_ok_length in Hdl.
  apply recitations_durations_length in Hdur.
  rewrite length_fmap in Hdl.
  assert (length recs = Z.to_nat (end_ - start + 1)) as Hn.
  { destruct (get_recitations_ok_inv _ _ _ _ _ _ _ Hres)
      as (r & s & Hr & Hs & H1 & H2 & H3 & Hst).
    rewrite (get_recitations_valid _ _ _ _ _ _ r s) in Hres by done.
    injection Hres as <-. simpl. rewrite !length_fmap. unfold py_range.
    rewrite length_fmap, length_seq. lia. }
  split.
  - apply generate_ayat_caption_file_ok; [|done].
    rewrite length_fmap. congruence.
  - unfold caption_lines. by rewrite length_imap, length_fmap.
Qed.

Lemma resolve_download_measure_caption_witness :
  generate_ayat_caption_file sample_float_repr (fun _ => true) ∅
    (text <$> [recitation_at sample_json_loads sample_api (lit "ar.alafasy")
                             true true 8;
               recitation_at sample_json_loads sample_api (lit "ar.alafasy")
                             true false 9])
    [3; 4.5]%float (lit "captions.txt") =
    (Ok tt,
     <[lit "captions.txt" :=
         lit "0:3.0:alif  lam  mim" ++ [10%N]
         ++ lit "3.0:7.5:verse 9" ++ [10%N]]> ∅) /\
  length (caption_lines sample_float_repr
            (text <$> [recitation_at sample_json_loads sample_api
                                     (lit "ar.alafasy") true true 8;
                       recitation_at sample_json_loads sample_api
                                     (lit "ar.alafasy") true false 9])
            [3; 4.5]%float) = Z.to_nat (2 - 1 + 1).
Proof.
  destruct (resolve_download_measure_caption (list (pystr * pystr))
              (fun _ _ => true) (fun w _ => Ok w) sample_download_file
              sample_exists sample_audio_length sample_float_repr
              (fun _ => true) sample_json_loads
              sample_api 1 2 1 2 [] ∅ (lit "out") (lit "captions.txt")
              [recitation_at sample_json_loads sample_api (lit "ar.alafasy")
                             true true 8;
               recitation_at sample_json_loads sample_api (lit "ar.alafasy")
                             true false 9]
              [lit "out/recitation_0.mp3"; lit "out/recitation_1.mp3"]
              [3; 4.5]%float) as [Hrun Hlen].
  - vm_compute. reflexivity.
  - vm_compute. reflexivity.
  - vm_compute. reflexivity.
  - reflexivity.
  - split; [|exact Hlen].
    etrans; [exact Hrun|]. vm_compute. reflexivity.
Defined.
